(** * CEPExtension: theme adapter, settings store and script bridge

    A shallow embedding of [src/cep-extension.js] and the properties of its
    colour transform, its settings store and its script bridge.

    Conventions of the embedding.
    - A JavaScript number is a [jsnum]: [NaN], the two infinities, or a finite
      value carried as a rational; addition and the reading of a number
      literal round to the nearest double ([to_double]).  Negative zero is
      not distinguished from zero (both are falsy and both print as "0").
    - A JavaScript string is a [string] of bytes.
    - A JavaScript object used as a map is the ordered list of its own
      properties; what it inherits from [Object.prototype] is read through
      [inherited], and an assignment to [__proto__] goes through the setter
      it finds there.
    - Host built-ins ([JSON.parse], [Math.round], [Number.prototype.toString],
      [cep.fs], [$.get], [evalScript]) are given by executable definitions of
      their documented behaviour; [JSON.stringify] is a parameter of the
      functions that call it. *)

From Stdlib Require Import ZArith QArith Qround Qabs Qminmax Lia List Bool Ascii String.
From stdpp Require Import base option gmap strings pretty.

Set Warnings "-register-all".

Local Open Scope string_scope.
Local Open Scope Z_scope.

(** ** Numbers *)

Module Num.

Inductive jsnum : Type :=
  | NaN
  | PInf
  | NInf
  | Fin (q : Q).

Definition of_Z (z : Z) : jsnum := Fin (inject_Z z).

(** [2 ^ e] for any integer [e]. *)
Definition pow2 (e : Z) : Q :=
  if e <? 0 then 1 # Z.to_pos (2 ^ (- e)) else inject_Z (2 ^ e).

(** The integer nearest to [p / d], the even one of two equally near. *)
Definition round_half_even (p d : Z) : Z :=
  let q := p / d in
  let r := p mod d in
  if 2 * r <? d then q
  else if d <? 2 * r then q + 1
  else if Z.even q then q else q + 1.

(** The double nearest to the rational [x], as every arithmetic operation
    on numbers delivers it: round to nearest, ties to even, on 53 bits of
    precision with exponents down to that of the subnormals, and an
    infinity from [2 ^ 1024] on. *)
Definition to_double (x : Q) : jsnum :=
  let x := Qred x in
  let n := Z.abs (Qnum x) in
  let d := Zpos (Qden x) in
  if n =? 0 then Fin 0
  else
    let e0 := Z.log2 n - Z.log2 d in
    let e := if Qle_bool (pow2 e0) (n # Qden x) then e0 else e0 - 1 in
    let k := Z.max e (- 1022) - 52 in
    let m := if k <? 0 then round_half_even (n * 2 ^ (- k)) d
             else round_half_even n (d * 2 ^ k) in
    let r := (inject_Z m * pow2 k)%Q in
    if Qle_bool (pow2 1024) r
    then (if Qnum x <? 0 then NInf else PInf)
    else Fin (Qred (if Qnum x <? 0 then - r else r)).

(** [a + b] on numbers: the double nearest to the exact sum. *)
Definition add (a b : jsnum) : jsnum :=
  match a, b with
  | NaN, _ | _, NaN => NaN
  | PInf, NInf | NInf, PInf => NaN
  | PInf, _ | _, PInf => PInf
  | NInf, _ | _, NInf => NInf
  | Fin x, Fin y => to_double (x + y)
  end.

(** Unary minus. *)
Definition neg (a : jsnum) : jsnum :=
  match a with
  | NaN => NaN
  | PInf => NInf
  | NInf => PInf
  | Fin x => Fin (- x)
  end.

(** [a - b] on numbers. *)
Definition sub (a b : jsnum) : jsnum := add a (neg b).

(** [a < b]; every comparison with [NaN] is false. *)
Definition lt (a b : jsnum) : bool :=
  match a, b with
  | NaN, _ | _, NaN => false
  | _, NInf => false
  | NInf, _ => true
  | PInf, _ => false
  | _, PInf => true
  | Fin x, Fin y => negb (Qle_bool y x)
  end.

(** [a > b]. *)
Definition gt (a b : jsnum) : bool := lt b a.

(** [Math.abs]. *)
Definition Math_abs (a : jsnum) : jsnum :=
  match a with
  | NaN => NaN
  | PInf | NInf => PInf
  | Fin x => Fin (Qabs x)
  end.

(** The global [isNaN] on a number. *)
Definition isNaN (a : jsnum) : bool :=
  match a with NaN => true | _ => false end.

(** The result of [Math.round]: an integer unless the argument was not
    finite. *)
Inductive rounded : Type :=
  | RNaN
  | RPInf
  | RNInf
  | RInt (z : Z).

(** [Math.round]: the integer nearest to the argument, ties towards
    positive infinity, that is [floor (x + 1/2)]. *)
Definition Math_round (a : jsnum) : rounded :=
  match a with
  | NaN => RNaN
  | PInf => RPInf
  | NInf => RNInf
  | Fin x => RInt (Qfloor (x + (1 # 2)))
  end.

(** One digit of a radix-16 rendering, lowercase as [toString(16)] prints. *)
Definition hex_digit (d : Z) : ascii :=
  match d with
  | 0 => "0" | 1 => "1" | 2 => "2" | 3 => "3"
  | 4 => "4" | 5 => "5" | 6 => "6" | 7 => "7"
  | 8 => "8" | 9 => "9" | 10 => "a" | 11 => "b"
  | 12 => "c" | 13 => "d" | 14 => "e" | _ => "f"
  end%char.

(** Digits of a non-negative integer in radix 16, most significant first. *)
Fixpoint hex_digits (fuel : nat) (n : Z) (acc : string) : string :=
  match fuel with
  | O => String (hex_digit (n mod 16)) acc
  | S fuel' =>
      if n <? 16 then String (hex_digit n) acc
      else hex_digits fuel' (n / 16) (String (hex_digit (n mod 16)) acc)
  end.

(** [n.toString(16)] for an integer [n]. *)
Definition int_toString16 (n : Z) : string :=
  if n <? 0 then String "-"%char (hex_digits (Z.to_nat (Z.log2 (- n))) (- n) EmptyString)
  else hex_digits (Z.to_nat (Z.log2 n)) n EmptyString.

(** [x.toString(16)] on the result of [Math.round]. *)
Definition toString16 (r : rounded) : string :=
  match r with
  | RNaN => "NaN"
  | RPInf => "Infinity"
  | RNInf => "-Infinity"
  | RInt z => int_toString16 z
  end.

End Num.

Import Num.

(** ** Colour transform *)

(** The colour object of the host's skin information. *)
Record Color : Type := mkColor {
  red : jsnum;
  green : jsnum;
  blue : jsnum
}.

(** [valueToHex(value, delta)]; an absent [delta] is [None]. *)
Definition valueToHex (value : jsnum) (delta : option jsnum) : string :=
  let computedValue :=
    match delta with
    | Some d => if negb (isNaN d) then add value d else value
    | None => value
    end in
  let computedValue :=
    if lt computedValue (of_Z 0) then of_Z 0
    else if gt computedValue (of_Z 255) then of_Z 255
    else computedValue in
  let computedValue := toString16 (Math_round computedValue) in
  if Nat.eqb (String.length computedValue) 1
  then ("0" ++ computedValue)%string
  else computedValue.

(** [colorToHex(color, delta)]. *)
Definition colorToHex (color : Color) (delta : option jsnum) : string :=
  ("#" ++ valueToHex (red color) delta
       ++ valueToHex (green color) delta
       ++ valueToHex (blue color) delta)%string.

(** The object literal [reverseColor] builds: every channel [c] replaced by
    [Math.abs(255 - c)]. *)
Definition reverse_channel (c : jsnum) : jsnum :=
  Math_abs (sub (of_Z 255) c).

Definition reversed (color : Color) : Color :=
  {| red := reverse_channel (red color);
     green := reverse_channel (green color);
     blue := reverse_channel (blue color) |}.

(** [reverseColor(color, delta)]. *)
Definition reverseColor (color : Color) (delta : option jsnum) : string :=
  colorToHex (reversed color) delta.

Definition rgb (r g b : Z) : Color :=
  {| red := of_Z r; green := of_Z g; blue := of_Z b |}.

(** ** Values *)

(** The built-in prototypes a value of the data model inherits from. *)
Inductive Kind : Type :=
  | KObject
  | KArray
  | KString
  | KNumber
  | KBoolean
  | KFunction.

(** The built-in objects of the engine that a property read can reach: a
    prototype ([Object.prototype], ...), its constructor ([Object], ...),
    or one of the functions it holds ([Object.prototype.toString], ...). *)
Inductive Intrinsic : Type :=
  | IPrototype (k : Kind)
  | IConstructor (k : Kind)
  | IMember (k : Kind) (name : string).

(** JavaScript values as the adapter meets them: the JSON data model, with
    [undefined], function values (named by an identifier) and the built-in
    objects added.  [JObj] is a plain object, whose prototype is
    [Object.prototype]; [JArr] is an array without named properties. *)
Inductive JSValue : Type :=
  | JUndefined
  | JNull
  | JBool (b : bool)
  | JNum (n : jsnum)
  | JStr (s : string)
  | JArr (elems : list JSValue)
  | JObj (props : list (string * JSValue))
  | JFun (f : nat)
  | JIntrinsic (i : Intrinsic).

(** What a JavaScript operation can throw. *)
Inductive JSException : Type :=
  | Thrown (v : JSValue)
  | TypeError.

(** Outcome of a fallible operation.  [Unmodelled] marks the behaviour
    the embedding leaves out: a named (non-index) property stored on an
    array, a prototype replaced through [__proto__], the properties of
    functions and built-in objects, and a [JSON.stringify] that does not
    return a string. *)
Inductive result (A : Type) : Type :=
  | Ok (a : A)
  | Throw (e : JSException)
  | Unmodelled.

Arguments Ok {A} a.
Arguments Throw {A} e.
Arguments Unmodelled {A}.

(** ToBoolean. *)
Definition truthy (v : JSValue) : bool :=
  match v with
  | JUndefined | JNull => false
  | JBool b => b
  | JNum NaN => false
  | JNum (Fin q) => negb (Qeq_bool q 0)
  | JNum _ => true
  | JStr s => negb (String.eqb s EmptyString)
  | JArr _ | JObj _ | JFun _ | JIntrinsic _ => true
  end.

(** [a || b]. *)
Definition js_or (a b : JSValue) : JSValue :=
  if truthy a then a else b.

(** [typeof v == "function"]: of the built-in objects, the constructors,
    the member functions and [Function.prototype] are functions. *)
Definition is_function (v : JSValue) : bool :=
  match v with
  | JFun _ => true
  | JIntrinsic (IPrototype KFunction) => true
  | JIntrinsic (IPrototype _) => false
  | JIntrinsic _ => true
  | _ => false
  end.

(** Whether the type of [v] is Object or Null, the values the setter of
    [__proto__] acts on. *)
Definition is_object_or_null (v : JSValue) : bool :=
  match v with
  | JNull | JArr _ | JObj _ | JFun _ | JIntrinsic _ => true
  | _ => false
  end.

(** [v !== undefined]. *)
Definition is_defined (v : JSValue) : bool :=
  match v with JUndefined => false | _ => true end.

(** ** Property keys and objects *)

Definition is_digit (c : ascii) : bool :=
  (48 <=? nat_of_ascii c)%nat && (nat_of_ascii c <=? 57)%nat.

Definition digit_value (c : ascii) : Z :=
  Z.of_nat (nat_of_ascii c) - 48.

Fixpoint digits_value (acc : Z) (cs : list ascii) : Z :=
  match cs with
  | [] => acc
  | c :: cs' => digits_value (10 * acc + digit_value c) cs'
  end.

(** A property name is an array index when it is the canonical decimal
    rendering of an integer below [2^32 - 1]; such keys are enumerated
    first, in ascending order. *)
Definition array_index (name : string) : option Z :=
  let cs := list_ascii_of_string name in
  match cs with
  | [] => None
  | c :: rest =>
      if forallb is_digit cs
         && (negb (Ascii.eqb c "0") || Nat.eqb (List.length rest) 0)
         && (List.length cs <=? 10)%nat
         && (digits_value 0 cs <? 4294967295)
      then Some (digits_value 0 cs)
      else None
  end.

(** Own-property lookup. *)
Fixpoint obj_get (props : list (string * JSValue)) (name : string)
  : option JSValue :=
  match props with
  | [] => None
  | (k, v) :: rest => if String.eqb k name then Some v else obj_get rest name
  end.

Definition obj_has (props : list (string * JSValue)) (name : string) : bool :=
  match obj_get props name with Some _ => true | None => false end.

(** Overwrite the value of a property that exists, in place. *)
Fixpoint obj_replace (props : list (string * JSValue)) (name : string)
  (v : JSValue) : list (string * JSValue) :=
  match props with
  | [] => []
  | (k, w) :: rest =>
      if String.eqb k name then (k, v) :: rest
      else (k, w) :: obj_replace rest name v
  end.

(** Create an index-named property: it goes before the first key that is
    not an index or is a larger index. *)
Fixpoint obj_insert_index (props : list (string * JSValue)) (i : Z)
  (name : string) (v : JSValue) : list (string * JSValue) :=
  match props with
  | [] => [(name, v)]
  | (k, w) :: rest =>
      match array_index k with
      | Some j =>
          if i <? j then (name, v) :: (k, w) :: rest
          else (k, w) :: obj_insert_index rest i name v
      | None => (name, v) :: (k, w) :: rest
      end
  end.

(** [o[name] = v] on the own properties of an ordinary object. *)
Definition obj_set (props : list (string * JSValue)) (name : string)
  (v : JSValue) : list (string * JSValue) :=
  if obj_has props name then obj_replace props name v
  else match array_index name with
       | Some i => obj_insert_index props i name v
       | None => props ++ [(name, v)]
       end.

(** [a[i] = v] on the elements of an array: assignment past the end pads
    with holes, which read as [undefined]. *)
Definition arr_set (elems : list JSValue) (i : nat) (v : JSValue)
  : list JSValue :=
  if (i <? List.length elems)%nat then <[i := v]> elems
  else elems ++ replicate (i - List.length elems) JUndefined ++ [v].

Definition string_index (s : string) (i : nat) : JSValue :=
  match String.get i s with
  | Some c => JStr (String c EmptyString)
  | None => JUndefined
  end.

(** The functions each built-in prototype holds, as ECMAScript 5.1 and its
    Annex B list them ([constructor] and [__proto__] are treated apart). *)
Definition members (k : Kind) : list string :=
  match k with
  | KObject =>
      ["toString"; "toLocaleString"; "valueOf"; "hasOwnProperty";
       "isPrototypeOf"; "propertyIsEnumerable"; "__defineGetter__";
       "__defineSetter__"; "__lookupGetter__"; "__lookupSetter__"]
  | KArray =>
      ["toString"; "toLocaleString"; "concat"; "join"; "pop"; "push";
       "reverse"; "shift"; "slice"; "sort"; "splice"; "unshift"; "indexOf";
       "lastIndexOf"; "every"; "some"; "forEach"; "map"; "filter"; "reduce";
       "reduceRight"]
  | KString =>
      ["toString"; "valueOf"; "charAt"; "charCodeAt"; "concat"; "indexOf";
       "lastIndexOf"; "localeCompare"; "match"; "replace"; "search"; "slice";
       "split"; "substring"; "toLowerCase"; "toLocaleLowerCase";
       "toUpperCase"; "toLocaleUpperCase"; "trim"; "substr"; "anchor"; "big";
       "blink"; "bold"; "fixed"; "fontcolor"; "fontsize"; "italics"; "link";
       "small"; "strike"; "sub"; "sup"]
  | KNumber =>
      ["toString"; "toLocaleString"; "valueOf"; "toFixed"; "toExponential";
       "toPrecision"]
  | KBoolean => ["toString"; "valueOf"]
  | KFunction => ["toString"; "apply"; "call"; "bind"]
  end.

Definition has_member (k : Kind) (name : string) : bool :=
  existsb (String.eqb name) (members k).

(** What a value whose prototype is that of kind [k] finds under [name]
    when it has no such property of its own: the constructor, the
    prototype itself for [__proto__], a function of the prototype or of
    [Object.prototype] behind it, or nothing. *)
Definition inherited (k : Kind) (name : string) : JSValue :=
  if String.eqb name "constructor" then JIntrinsic (IConstructor k)
  else if String.eqb name "__proto__" then JIntrinsic (IPrototype k)
  else if has_member k name then JIntrinsic (IMember k name)
  else if has_member KObject name then JIntrinsic (IMember KObject name)
  else JUndefined.

(** [o[name]] for any value [o]: an own property, or else what the
    prototype chain gives. *)
Definition prop_get (o : JSValue) (name : string) : result JSValue :=
  match o with
  | JUndefined | JNull => Throw TypeError
  | JObj props =>
      match obj_get props name with
      | Some v => Ok v
      | None => Ok (inherited KObject name)
      end
  | JArr elems =>
      match array_index name with
      | Some i => Ok (default JUndefined (elems !! Z.to_nat i))
      | None =>
          if String.eqb name "length"
          then Ok (JNum (of_Z (Z.of_nat (List.length elems))))
          else Ok (inherited KArray name)
      end
  | JStr s =>
      match array_index name with
      | Some i => Ok (string_index s (Z.to_nat i))
      | None =>
          if String.eqb name "length"
          then Ok (JNum (of_Z (Z.of_nat (String.length s))))
          else Ok (inherited KString name)
      end
  | JNum _ => Ok (inherited KNumber name)
  | JBool _ => Ok (inherited KBoolean name)
  | JFun _ | JIntrinsic _ => Unmodelled
  end.

(** [o[name] = v] in strict mode, returning the updated [o].  Every name
    but [__proto__] is, on the prototype chain, absent or a writable data
    property, so the assignment makes or overwrites an own property of an
    object and fails on a primitive.  [__proto__], unless the object has a
    property of its own by that name, reaches the setter of
    [Object.prototype]: it replaces the prototype of an object when [v] is
    an object or [null], and does nothing otherwise. *)
Definition prop_set (o : JSValue) (name : string) (v : JSValue)
  : result JSValue :=
  match o with
  | JObj props =>
      if String.eqb name "__proto__" && negb (obj_has props name)
      then if is_object_or_null v then Unmodelled else Ok (JObj props)
      else Ok (JObj (obj_set props name v))
  | JArr elems =>
      match array_index name with
      | Some i => Ok (JArr (arr_set elems (Z.to_nat i) v))
      | None =>
          if String.eqb name "__proto__" && negb (is_object_or_null v)
          then Ok (JArr elems)
          else Unmodelled
      end
  | JFun _ | JIntrinsic _ => Unmodelled
  | JBool _ | JNum _ | JStr _ =>
      if String.eqb name "__proto__" then Ok o else Throw TypeError
  | JUndefined | JNull => Throw TypeError
  end.

(** ** JSON.parse *)

Module Json.

(** Result of parsing a prefix of the input. *)
Inductive presult (A : Type) : Type :=
  | POk (a : A) (rest : list ascii)
  | PSyntaxError
  | POutOfFuel.

Arguments POk {A} a rest.
Arguments PSyntaxError {A}.
Arguments POutOfFuel {A}.

(** JSON white space: tab, line feed, carriage return, space. *)
Definition is_ws (c : ascii) : bool :=
  match nat_of_ascii c with
  | 9%nat | 10%nat | 13%nat | 32%nat => true
  | _ => false
  end.

Fixpoint skip_ws (cs : list ascii) : list ascii :=
  match cs with
  | c :: cs' => if is_ws c then skip_ws cs' else cs
  | [] => []
  end.

(** Longest prefix of decimal digits, and what follows it. *)
Fixpoint take_digits (cs : list ascii) : list ascii * list ascii :=
  match cs with
  | c :: cs' =>
      if is_digit c
      then let '(ds, rest) := take_digits cs' in (c :: ds, rest)
      else ([], cs)
  | [] => ([], [])
  end.

Definition hex_value (c : ascii) : option Z :=
  let n := Z.of_nat (nat_of_ascii c) in
  if (48 <=? n) && (n <=? 57) then Some (n - 48)
  else if (97 <=? n) && (n <=? 102) then Some (n - 87)
  else if (65 <=? n) && (n <=? 70) then Some (n - 55)
  else None.

Definition byte (n : Z) : ascii := ascii_of_nat (Z.to_nat n).

(** The quotation mark. *)
Definition dquote : ascii := ascii_of_nat 34.

(** The bytes (UTF-8) of the code unit a [\uXXXX] escape denotes. *)
Definition encode_unit (u : Z) : list ascii :=
  if u <? 128 then [byte u]
  else if u <? 2048 then [byte (192 + u / 64); byte (128 + u mod 64)]
  else [byte (224 + u / 4096); byte (128 + (u / 64) mod 64);
        byte (128 + u mod 64)].

(** The characters of a string literal after its opening quote, up to and
    including the closing quote. *)
Fixpoint parse_chars (cs : list ascii) (acc : list ascii)
  : presult (list ascii) :=
  match cs with
  | [] => PSyntaxError
  | c :: cs' =>
      if Ascii.eqb c dquote then POk (rev acc) cs'
      else if Ascii.eqb c "\" then
        match cs' with
        | e :: cs'' =>
            if Ascii.eqb e "u" then
              match cs'' with
              | h1 :: h2 :: h3 :: h4 :: cs3 =>
                  match hex_value h1, hex_value h2, hex_value h3, hex_value h4
                  with
                  | Some a, Some b, Some c', Some d =>
                      parse_chars cs3
                        (rev (encode_unit (4096 * a + 256 * b + 16 * c' + d))
                           ++ acc)
                  | _, _, _, _ => PSyntaxError
                  end
              | _ => PSyntaxError
              end
            else
              let simple (x : ascii) := parse_chars cs'' (x :: acc) in
              if Ascii.eqb e dquote then simple e
              else if Ascii.eqb e "\" then simple e
              else if Ascii.eqb e "/" then simple e
              else if Ascii.eqb e "b" then simple (ascii_of_nat 8)
              else if Ascii.eqb e "f" then simple (ascii_of_nat 12)
              else if Ascii.eqb e "n" then simple (ascii_of_nat 10)
              else if Ascii.eqb e "r" then simple (ascii_of_nat 13)
              else if Ascii.eqb e "t" then simple (ascii_of_nat 9)
              else PSyntaxError
        | [] => PSyntaxError
        end
      else if (nat_of_ascii c <? 32)%nat then PSyntaxError
      else parse_chars cs' (c :: acc)
  end.

Definition parse_string (cs : list ascii) : presult string :=
  match parse_chars cs [] with
  | POk body rest => POk (string_of_list_ascii body) rest
  | PSyntaxError => PSyntaxError
  | POutOfFuel => POutOfFuel
  end.

(** [10 ^ e] for any integer [e]. *)
Definition pow10 (e : Z) : Q :=
  if e <? 0 then 1 # Z.to_pos (10 ^ (- e)) else inject_Z (10 ^ e).

(** A number literal: an optional minus sign, an integer part without a
    leading zero (or the single digit zero), an optional fraction of a dot
    and at least one digit, an optional exponent.  Its value is the double
    nearest to the decimal written, an infinity when that overflows. *)
Definition parse_number (cs : list ascii) : presult JSValue :=
  let '(negative, cs1) :=
    match cs with
    | c :: r => if Ascii.eqb c "-" then (true, r) else (false, cs)
    | [] => (false, cs)
    end in
  let '(int_part, cs2) := take_digits cs1 in
  match int_part with
  | [] => PSyntaxError
  | d :: more =>
      if Ascii.eqb d "0" && negb (Nat.eqb (List.length more) 0)
      then POk (JNum (Fin (if negative then - 0 else 0))) (more ++ cs2)
      else
        let frac :=
          match cs2 with
          | c :: r =>
              if Ascii.eqb c "." then
                let '(fs, r') := take_digits r in
                match fs with
                | [] => None
                | _ => Some (fs, r')
                end
              else Some ([], cs2)
          | [] => Some ([], cs2)
          end in
        match frac with
        | None => PSyntaxError
        | Some (frac_part, cs3) =>
            let expo :=
              match cs3 with
              | c :: r =>
                  if Ascii.eqb c "e" || Ascii.eqb c "E" then
                    let '(eneg, r1) :=
                      match r with
                      | sgn :: r' =>
                          if Ascii.eqb sgn "-" then (true, r')
                          else if Ascii.eqb sgn "+" then (false, r')
                          else (false, r)
                      | [] => (false, r)
                      end in
                    let '(es, r2) := take_digits r1 in
                    match es with
                    | [] => None
                    | _ =>
                        let e := digits_value 0 es in
                        Some (if eneg then - e else e, r2)
                    end
                  else Some (0, cs3)
              | [] => Some (0, cs3)
              end in
            match expo with
            | None => PSyntaxError
            | Some (e, rest) =>
                let mantissa := digits_value 0 (int_part ++ frac_part) in
                let scale := e - Z.of_nat (List.length frac_part) in
                let q := (inject_Z mantissa * pow10 scale)%Q in
                POk (JNum (to_double (if negative then - q else q))) rest
            end
        end
  end.

(** What follows the literal [word] at the head of [cs], if it is there. *)
Fixpoint strip_prefix (word : string) (cs : list ascii)
  : option (list ascii) :=
  match word with
  | EmptyString => Some cs
  | String w word' =>
      match cs with
      | c :: cs' => if Ascii.eqb c w then strip_prefix word' cs' else None
      | [] => None
      end
  end.

(** The recursive part of the grammar.  [fuel] bounds the depth of the
    calls; [parse] below supplies enough of it for every input. *)
Fixpoint parse_value (fuel : nat) (cs : list ascii) : presult JSValue :=
  match fuel with
  | O => POutOfFuel
  | S fuel' =>
      match skip_ws cs with
      | [] => PSyntaxError
      | c :: rest =>
          if Ascii.eqb c dquote then
            match parse_string rest with
            | POk s r => POk (JStr s) r
            | PSyntaxError => PSyntaxError
            | POutOfFuel => POutOfFuel
            end
          else if Ascii.eqb c "[" then
            match skip_ws rest with
            | c' :: r =>
                if Ascii.eqb c' "]" then POk (JArr []) r
                else parse_elements fuel' rest []
            | [] => PSyntaxError
            end
          else if Ascii.eqb c "{" then
            match skip_ws rest with
            | c' :: r =>
                if Ascii.eqb c' "}" then POk (JObj []) r
                else parse_members fuel' rest []
            | [] => PSyntaxError
            end
          else if Ascii.eqb c "-" || is_digit c then parse_number (c :: rest)
          else
            match strip_prefix "null" (c :: rest) with
            | Some r => POk JNull r
            | None =>
                match strip_prefix "true" (c :: rest) with
                | Some r => POk (JBool true) r
                | None =>
                    match strip_prefix "false" (c :: rest) with
                    | Some r => POk (JBool false) r
                    | None => PSyntaxError
                    end
                end
            end
      end
  end

with parse_elements (fuel : nat) (cs : list ascii) (acc : list JSValue)
  : presult JSValue :=
  match fuel with
  | O => POutOfFuel
  | S fuel' =>
      match parse_value fuel' cs with
      | POk v r =>
          match skip_ws r with
          | c :: r' =>
              if Ascii.eqb c "," then parse_elements fuel' r' (v :: acc)
              else if Ascii.eqb c "]" then POk (JArr (rev (v :: acc))) r'
              else PSyntaxError
          | [] => PSyntaxError
          end
      | PSyntaxError => PSyntaxError
      | POutOfFuel => POutOfFuel
      end
  end

with parse_members (fuel : nat) (cs : list ascii)
  (acc : list (string * JSValue)) : presult JSValue :=
  match fuel with
  | O => POutOfFuel
  | S fuel' =>
      match skip_ws cs with
      | q :: r0 =>
          if Ascii.eqb q dquote then
            match parse_string r0 with
            | POk key r1 =>
                match skip_ws r1 with
                | colon :: r2 =>
                    if Ascii.eqb colon ":" then
                      match parse_value fuel' r2 with
                      | POk v r3 =>
                          match skip_ws r3 with
                          | c :: r4 =>
                              if Ascii.eqb c "," then
                                parse_members fuel' r4 (obj_set acc key v)
                              else if Ascii.eqb c "}" then
                                POk (JObj (obj_set acc key v)) r4
                              else PSyntaxError
                          | [] => PSyntaxError
                          end
                      | PSyntaxError => PSyntaxError
                      | POutOfFuel => POutOfFuel
                      end
                    else PSyntaxError
                | [] => PSyntaxError
                end
            | PSyntaxError => PSyntaxError
            | POutOfFuel => POutOfFuel
            end
          else PSyntaxError
      | [] => PSyntaxError
      end
  end.

(** Fuel that suffices for an input of the given length. *)
Definition fuel_for (cs : list ascii) : nat := (2 * List.length cs + 2)%nat.

(** A whole text: one value, white space around it, nothing else. *)
Definition parse (text : string) : presult JSValue :=
  let cs := list_ascii_of_string text in
  match parse_value (fuel_for cs) cs with
  | POk v rest =>
      match skip_ws rest with
      | [] => POk v []
      | _ :: _ => PSyntaxError
      end
  | PSyntaxError => PSyntaxError
  | POutOfFuel => POutOfFuel
  end.

End Json.

(** [JSON.parse(text)]: the value, or [None] when it throws a SyntaxError. *)
Definition JSON_parse (text : string) : option JSValue :=
  match Json.parse text with
  | Json.POk v _ => Some v
  | _ => None
  end.

(** ** Deserialization *)

(** [unserialize(str)]. *)
Definition unserialize (str : string) : JSValue :=
  if String.eqb str "undefined" then JUndefined
  else match JSON_parse str with
       | Some result => result
       | None => JStr str
       end.

(** ** Script path pattern *)

Module Regex.

(** Regular expressions over characters, as far as the literal in [execute]
    needs them. *)
Inductive regex : Type :=
  | Void
  | Eps
  | Class (p : ascii -> bool)
  | Cat (r1 r2 : regex)
  | Alt (r1 r2 : regex)
  | Star (r : regex).

Definition Chr (c : ascii) : regex := Class (Ascii.eqb c).
Definition Plus (r : regex) : regex := Cat r (Star r).
Definition Opt (r : regex) : regex := Alt r Eps.

Fixpoint Lit (cs : list ascii) : regex :=
  match cs with
  | [] => Eps
  | c :: cs' => Cat (Chr c) (Lit cs')
  end.

Fixpoint nullable (r : regex) : bool :=
  match r with
  | Void => false
  | Eps => true
  | Class _ => false
  | Cat r1 r2 => nullable r1 && nullable r2
  | Alt r1 r2 => nullable r1 || nullable r2
  | Star _ => true
  end.

(** Derivative of [r] by the character [c]. *)
Fixpoint deriv (c : ascii) (r : regex) : regex :=
  match r with
  | Void | Eps => Void
  | Class p => if p c then Eps else Void
  | Cat r1 r2 =>
      if nullable r1 then Alt (Cat (deriv c r1) r2) (deriv c r2)
      else Cat (deriv c r1) r2
  | Alt r1 r2 => Alt (deriv c r1) (deriv c r2)
  | Star r' => Cat (deriv c r') (Star r')
  end.

(** Whether the whole of [cs] matches [r]: the anchored [/^(r)$/.test]. *)
Fixpoint matches (r : regex) (cs : list ascii) : bool :=
  match cs with
  | [] => nullable r
  | c :: cs' => matches (deriv c r) cs'
  end.

End Regex.

Definition in_range (lo hi c : ascii) : bool :=
  (nat_of_ascii lo <=? nat_of_ascii c)%nat
  && (nat_of_ascii c <=? nat_of_ascii hi)%nat.

(** The character class of the pattern: slash, letters, digits, hyphen,
    bar, underscore, dot, percent and question mark. *)
Definition path_char (c : ascii) : bool :=
  Ascii.eqb c "/" || in_range "a" "z" c || in_range "A" "Z" c
  || in_range "0" "9" c || Ascii.eqb c "-" || Ascii.eqb c "|"
  || Ascii.eqb c "_" || Ascii.eqb c "." || Ascii.eqb c "%"
  || Ascii.eqb c "?".

(** The pattern of [execute]: one or more class characters, then [.js],
    then optionally [fl] or [x]. *)
Definition script_path_pattern : Regex.regex :=
  Regex.Cat (Regex.Plus (Regex.Class path_char))
    (Regex.Cat (Regex.Lit [".";"j";"s"]%char)
       (Regex.Opt (Regex.Alt (Regex.Lit ["f";"l"]%char)
                             (Regex.Lit ["x"]%char)))).

(** The test [execute] applies to [script]. *)
Definition is_script_path (script : string) : bool :=
  Regex.matches script_path_pattern (list_ascii_of_string script).

(** ** The host *)

(** The style sheet object behind the style element: which of the two
    rule-adding methods it offers, and its rules. *)
Record Sheet : Type := mkSheet {
  has_addRule : bool;
  has_insertRule : bool;
  cssRules : list string
}.

(** [appSkinInfo]: the panel background colour and the base font size, an
    integer number of pixels. *)
Record SkinInfo : Type := mkSkinInfo {
  panelBackgroundColor : Color;
  baseFontSize : Z
}.

(** The part of the host the adapter talks to.  [files] is keyed by the
    path text handed to [cep.fs]: what was last written under a text is
    what is read under that same text.  Which texts the file system takes
    for one file (a trailing [/.], letter case) is the host's matter and is
    left open. *)
Record Host : Type := mkHost {
  adobe_cep : bool;
  extension_path : string;
  user_data_path : string;
  host_appName : string;
  appSkinInfo : SkinInfo;
  files : gmap string string;
  dirs : gset string;
  stylesheets : gmap string Sheet;
  theme_listeners : nat
}.

(** [cep.fs.makedir(path)]. *)
Definition makedir (h : Host) (path : string) : Host :=
  mkHost (adobe_cep h) (extension_path h) (user_data_path h) (host_appName h)
    (appSkinInfo h) (files h) ({[ path ]} ∪ dirs h) (stylesheets h)
    (theme_listeners h).

(** [cep.fs.readFile(path).data]: the text of the file, empty when there is
    none to read. *)
Definition readFile (h : Host) (path : string) : string :=
  default EmptyString (files h !! path).

(** [cep.fs.writeFile(path, data)]: the file holds [data] and nothing else. *)
Definition writeFile (h : Host) (path data : string) : Host :=
  mkHost (adobe_cep h) (extension_path h) (user_data_path h) (host_appName h)
    (appSkinInfo h) (<[ path := data ]> (files h)) (dirs h) (stylesheets h)
    (theme_listeners h).

(** [csInterface.addEventListener(THEME_COLOR_CHANGED_EVENT, ...)]. *)
Definition addEventListener (h : Host) : Host :=
  mkHost (adobe_cep h) (extension_path h) (user_data_path h) (host_appName h)
    (appSkinInfo h) (files h) (dirs h) (stylesheets h)
    (S (theme_listeners h)).

Definition set_sheet (h : Host) (selector : string) (sh : Sheet) : Host :=
  mkHost (adobe_cep h) (extension_path h) (user_data_path h) (host_appName h)
    (appSkinInfo h) (files h) (dirs h) (<[ selector := sh ]> (stylesheets h))
    (theme_listeners h).

(** ** The adapter *)

Record CEPExtension : Type := mkCEPExtension {
  stylesheet : string;
  supported : bool;
  extensionPath : string;
  settingsPath : string;
  settingsFile : string;
  settings : JSValue;
  appName : string;
  isFlash : bool
}.

Definition with_settings (self : CEPExtension) (s : JSValue) : CEPExtension :=
  mkCEPExtension (stylesheet self) (supported self) (extensionPath self)
    (settingsPath self) (settingsFile self) s (appName self) (isFlash self).

(** [sheet.addRule(selector, rule)]: the rule goes last. *)
Definition sheet_addRule (sheet : Sheet) (selector rule : string) : Sheet :=
  mkSheet (has_addRule sheet) (has_insertRule sheet)
    (cssRules sheet ++ [(selector ++ " { " ++ rule ++ " }")%string]).

(** [sheet.insertRule(text, index)]. *)
Definition sheet_insertRule (sheet : Sheet) (text : string) (index : nat)
  : Sheet :=
  mkSheet (has_addRule sheet) (has_insertRule sheet)
    (take index (cssRules sheet) ++ text :: drop index (cssRules sheet)).

(** [addRule(selector, rule)]. *)
Definition addRule (self : CEPExtension) (h : Host) (selector rule : string)
  : result Host :=
  match stylesheets h !! stylesheet self with
  | None => Throw TypeError
  | Some sheet =>
      if has_addRule sheet then
        Ok (set_sheet h (stylesheet self) (sheet_addRule sheet selector rule))
      else if has_insertRule sheet then
        Ok (set_sheet h (stylesheet self)
              (sheet_insertRule sheet
                 (selector ++ " { " ++ rule ++ " }")%string
                 (List.length (cssRules sheet))))
      else Ok h
  end.

(** [update(info)]. *)
Definition update (self : CEPExtension) (h : Host) (info : SkinInfo)
  : result Host :=
  let color := panelBackgroundColor info in
  addRule self h "body"
    ("color: " ++ reverseColor color None ++ ";"
     ++ "font-size:" ++ pretty (baseFontSize info) ++ "px;"
     ++ "background-color:" ++ colorToHex color None)%string.

(** The constructor [new CEPExtension(stylesheet, namespace)]: the instance
    and the host after it, or what it throws.  The closing call of [init],
    whose body is empty, leaves both as they are. *)
Definition construct (h : Host) (sheet namespace : string)
  : result (CEPExtension * Host) :=
  let supported := adobe_cep h in
  if negb supported then
    Throw (Thrown
      (JStr "Extension must run as a CEP Extension inside Adobe applications"))
  else
    let extensionPath := extension_path h in
    let settingsPath := (user_data_path h ++ "/" ++ namespace)%string in
    let h := makedir h settingsPath in
    let settingsFile := (settingsPath ++ "/settings.json")%string in
    let settings := js_or (unserialize (readFile h settingsFile)) (JObj []) in
    let appName := host_appName h in
    let isFlash := String.eqb appName "FLPR" in
    let self :=
      mkCEPExtension sheet supported extensionPath settingsPath settingsFile
        settings appName isFlash in
    let h := addEventListener h in
    match update self h (appSkinInfo h) with
    | Ok h => Ok (self, h)
    | Throw e => Throw e
    | Unmodelled => Unmodelled
    end.

(** [getProp(name)]. *)
Definition getProp (self : CEPExtension) (name : string) : result JSValue :=
  match prop_get (settings self) name with
  | Ok v => Ok (js_or v JNull)
  | Throw e => Throw e
  | Unmodelled => Unmodelled
  end.

(** What the adapter asks of the host when [execute] runs. *)
Inductive Dispatch : Type :=
  | Get (url : string) (args callback : JSValue)
  | EvalScript (script : string) (callback : JSValue)
  | DebugError (message : string).

(** What the completion function handed to [evalScript] does with the
    host's response: nothing; a call of the function [f] on the instance;
    a call of what [callback.call] is, as a method of the callback, with
    the instance and the value as arguments; or a throw. *)
Inductive Completion : Type :=
  | Ignored
  | Call (f : nat) (this : CEPExtension) (argument : JSValue)
  | CallMember (member receiver : JSValue) (first : CEPExtension)
      (second : JSValue)
  | CallThrows (e : JSException).

(** [callback.call(self, value)] for a callback that is not a function
    value of the caller: [member] is what the callback has under [call]. *)
Definition call_member (member callback : JSValue) (self : CEPExtension)
  (value : JSValue) : Completion :=
  if is_function member then CallMember member callback self value
  else CallThrows TypeError.

(** The function handed to [evalScript]. *)
Definition on_response (self : CEPExtension) (callback : JSValue)
  (response : string) : Completion :=
  if is_defined callback then
    match callback with
    | JFun f => Call f self (unserialize response)
    | JIntrinsic _ =>
        call_member
          (if is_function callback
           then JIntrinsic (IMember KFunction "call") else JUndefined)
          callback self (unserialize response)
    | _ =>
        match prop_get callback "call" with
        | Ok member => call_member member callback self (unserialize response)
        | Throw e => CallThrows e
        | Unmodelled => CallThrows TypeError
        end
    end
  else Ignored.

Section WithStringify.

(** [JSON.stringify], taken not to throw: the string it returns, [None]
    when it returns [undefined].  The values of [JSValue] are finite trees
    of plain data, so there is no cycle to report, and the one way left for
    it to throw is a [toJSON] function of the caller that throws; such a
    call has no description here. *)
Variable JSON_stringify : JSValue -> option string.

(** String concatenation with the result of [JSON.stringify]. *)
Definition stringified (v : JSValue) : string :=
  default "undefined" (JSON_stringify v).

(** [setProp(name, value)]: the assignment, then the whole settings value
    serialized and written over the settings file.  With no string to
    write, what the host makes of [writeFile(path, undefined)] is its own
    matter. *)
Definition setProp (self : CEPExtension) (h : Host) (name : string)
  (value : JSValue) : result (CEPExtension * Host) :=
  match prop_set (settings self) name value with
  | Ok settings' =>
      let self := with_settings self settings' in
      match JSON_stringify (settings self) with
      | Some text => Ok (self, writeFile h (settingsFile self) text)
      | None => Unmodelled
      end
  | Throw e => Throw e
  | Unmodelled => Unmodelled
  end.

(** [execute(script, args, callback)]. *)
Definition execute (self : CEPExtension) (script : string)
  (args callback : JSValue) : Dispatch :=
  let '(args, callback) :=
    if is_function args then (JUndefined, args) else (args, callback) in
  if supported self then
    if is_script_path script then Get script args callback
    else
      let script :=
        if is_defined args
        then ("var args=" ++ stringified args ++ ";" ++ String (ascii_of_nat 10) EmptyString ++ script)%string
        else script in
      EvalScript script callback
  else DebugError "Unable to execute command".

(** The function handed to [$.get]: [execute] again, on the text fetched. *)
Definition on_fetched (self : CEPExtension) (args callback : JSValue)
  (data : string) : Dispatch :=
  execute self data args callback.

End WithStringify.

(** ** A serializer for the integral fragment *)

Module Serialize.

Definition hex4 (n : Z) : string :=
  String (hex_digit (n / 4096 mod 16))
    (String (hex_digit (n / 256 mod 16))
       (String (hex_digit (n / 16 mod 16))
          (String (hex_digit (n mod 16)) EmptyString))).

(** The characters of a string literal, escaped as [JSON.stringify] does. *)
Fixpoint escape (s : string) : string :=
  match s with
  | EmptyString => EmptyString
  | String c s' =>
      let n := nat_of_ascii c in
      let rest := escape s' in
      if Ascii.eqb c Json.dquote then String "\" (String Json.dquote rest)
      else if Ascii.eqb c "\" then String "\" (String "\" rest)
      else if Nat.eqb n 8 then String "\" (String "b" rest)
      else if Nat.eqb n 12 then String "\" (String "f" rest)
      else if Nat.eqb n 10 then String "\" (String "n" rest)
      else if Nat.eqb n 13 then String "\" (String "r" rest)
      else if Nat.eqb n 9 then String "\" (String "t" rest)
      else if (n <? 32)%nat
      then (String "\" (String "u" (hex4 (Z.of_nat n))) ++ rest)%string
      else String c rest
  end.

Definition quote (s : string) : string :=
  String Json.dquote (escape s ++ String Json.dquote EmptyString).

Fixpoint join (parts : list string) : string :=
  match parts with
  | [] => EmptyString
  | [x] => x
  | x :: rest => (x ++ "," ++ join rest)%string
  end.

(** A finite number that is an integer, as that integer. *)
Definition integral (q : Q) : option Z :=
  if (Qnum q mod Zpos (Qden q) =? 0) then Some (Qnum q / Zpos (Qden q))
  else None.

(** [JSON.stringify(v)] for values whose finite numbers are integers below
    [10^21] in magnitude, printed in plain decimal notation, and whose
    objects hold no [toJSON] function.  The outer option is [None] outside
    that fragment; the inner one is [None] where [JSON.stringify] returns
    [undefined]. *)
Fixpoint stringify_value (v : JSValue) : option (option string) :=
  match v with
  | JUndefined | JFun _ => Some None
  | JIntrinsic _ => None
  | JNull => Some (Some "null")
  | JBool true => Some (Some "true")
  | JBool false => Some (Some "false")
  | JNum (Fin q) =>
      match integral q with
      | Some z =>
          if Z.abs z <? 10 ^ 21 then Some (Some (pretty z)) else None
      | None => None
      end
  | JNum _ => Some (Some "null")
  | JStr s => Some (Some (quote s))
  | JArr elems =>
      let fix items (l : list JSValue) : option (list string) :=
        match l with
        | [] => Some []
        | x :: l' =>
            match stringify_value x, items l' with
            | Some sx, Some rest => Some (default "null" sx :: rest)
            | _, _ => None
            end
        end in
      match items elems with
      | Some parts => Some (Some ("[" ++ join parts ++ "]")%string)
      | None => None
      end
  | JObj props =>
      let fix members (l : list (string * JSValue)) : option (list string) :=
        match l with
        | [] => Some []
        | (k, x) :: l' =>
            match stringify_value x, members l' with
            | Some (Some sx), Some rest =>
                Some ((quote k ++ ":" ++ sx)%string :: rest)
            | Some None, Some rest => Some rest
            | _, _ => None
            end
        end in
      if is_function (default JUndefined (obj_get props "toJSON")) then None
      else
        match members props with
        | Some parts => Some (Some ("{" ++ join parts ++ "}")%string)
        | None => None
        end
  end.

(** The instance of [JSON.stringify] on the integral fragment. *)
Definition stringify (v : JSValue) : option string :=
  match stringify_value v with
  | Some r => r
  | None => None
  end.

End Serialize.

(** ** Reference notions for the statements *)

(** The two-digit, zero-padded, lowercase radix-16 rendering of [n]. *)
Definition hex_pair (n : Z) : string :=
  String (hex_digit (n / 16)) (String (hex_digit (n mod 16)) EmptyString).

Definition is_lower_hex (c : ascii) : bool :=
  in_range "0" "9" c || in_range "a" "f" c.

Fixpoint all_chars (p : ascii -> bool) (s : string) : bool :=
  match s with
  | EmptyString => true
  | String c s' => p c && all_chars p s'
  end.

(** The sum a channel is encoded from: [v + d] when [d] is a number, [v]
    when it is [NaN] or absent. *)
Definition shifted (v : Q) (d : option jsnum) : jsnum :=
  match d with
  | None | Some NaN => Fin v
  | Some d => add (Fin v) d
  end.

(** The value of [x] brought into the channel range. *)
Definition clamped (x : jsnum) : Q :=
  match x with
  | Fin q => Qmax 0 (Qmin 255 q)
  | PInf => 255
  | NInf | NaN => 0
  end.

(** [n] is the integer nearest to [c], the upper one of two equally near. *)
Definition nearest (c : Q) (n : Z) : Prop :=
  (c - (1 # 2) < inject_Z n /\ inject_Z n <= c + (1 # 2))%Q.

(** [text] is the encoding of the channel value [v] shifted by [d]: the
    two lowercase digits of the integer [n] nearest to the clamped sum. *)
Definition encodes (v : Q) (d : option jsnum) (n : Z) (text : string) : Prop :=
  0 <= n <= 255
  /\ nearest (clamped (shifted v d)) n
  /\ text = hex_pair n
  /\ String.length text = 2%nat
  /\ all_chars is_lower_hex text = true.

(** A value that is an object used as a map. *)
Definition is_object (v : JSValue) : bool :=
  match v with JObj _ => true | _ => false end.

(** A supported host with one style sheet; the settings file of
    [com.example.App] holds [settings_text], or is absent for [None]. *)
Definition example_host (settings_text : option string) : Host :=
  mkHost true "/ext" "/data" "PHSP" (mkSkinInfo (rgb 10 20 30) 11)
    (match settings_text with
     | Some text => {[ "/data/com.example.App/settings.json" := text ]}
     | None => ∅
     end)
    ∅ {[ "#theme" := mkSheet true true [] ]} 0.

(** The settings value the constructor ends up with, by the text of the
    settings file: the empty object for an empty text (no file), for the
    literal [undefined] and for a falsy JSON value; the parsed value for
    other valid JSON; the text itself for anything else. *)
Definition loaded_settings (text : string) : JSValue :=
  if String.eqb text EmptyString then JObj []
  else if String.eqb text "undefined" then JObj []
  else match JSON_parse text with
       | Some v => if truthy v then v else JObj []
       | None => JStr text
       end.

(** The statement that the constructor always loads an object, and the
    empty one when the file is not valid JSON. *)
Definition loads_an_object (h : Host) (sheet namespace : string) : Prop :=
  forall a h',
    construct h sheet namespace = Ok (a, h') ->
    is_object (settings a) = true
    /\ (JSON_parse (readFile h (settingsFile a)) = None ->
        settings a = JObj []).

(** An adapter as the first run leaves it, with the given settings. *)
Definition example_adapter (s : JSValue) : CEPExtension :=
  mkCEPExtension "#theme" true "/ext" "/data/com.example.App"
    "/data/com.example.App/settings.json" s "PHSP" false.

(** The language of a regular expression. *)
Inductive star (L : list ascii -> Prop) : list ascii -> Prop :=
  | star_nil : star L []
  | star_app (s1 s2 : list ascii) :
      L s1 -> star L s2 -> star L (s1 ++ s2)%list.

Fixpoint lang (r : Regex.regex) (s : list ascii) : Prop :=
  match r with
  | Regex.Void => False
  | Regex.Eps => s = []
  | Regex.Class p => exists c, s = [c] /\ p c = true
  | Regex.Cat r1 r2 =>
      exists s1 s2, s = (s1 ++ s2)%list /\ lang r1 s1 /\ lang r2 s2
  | Regex.Alt r1 r2 => lang r1 s \/ lang r2 s
  | Regex.Star r' => star (lang r') s
  end.

(** The three extensions of a script file. *)
Definition script_extension (ext : string) : Prop :=
  ext = ".js" \/ ext = ".jsfl" \/ ext = ".jsx".

(** [s] ends with [suffix]. *)
Fixpoint ends_with (suffix s : string) : bool :=
  if String.eqb s suffix then true
  else match s with
       | String _ s' => ends_with suffix s'
       | EmptyString => false
       end.

(** The file-path test as the specification words it: only characters of
    the class, and one of the three extensions at the end. *)
Definition path_as_stated (script : string) : bool :=
  all_chars path_char script
  && (ends_with ".js" script || ends_with ".jsfl" script
      || ends_with ".jsx" script).

(** [script] is made of class characters only and is a non-empty stem
    followed by one of the three extensions. *)
Definition script_path (script : string) : Prop :=
  all_chars path_char script = true
  /\ exists stem ext,
       script = (stem ++ ext)%string
       /\ stem <> EmptyString
       /\ script_extension ext.

(** The dispatches [execute] settles on once every fetch it started has
    delivered its text: [fetch] gives the text behind a path. *)
Inductive settles (JSON_stringify : JSValue -> option string)
  (fetch : string -> string) (self : CEPExtension)
  : string -> JSValue -> JSValue -> Dispatch -> Prop :=
  | settles_eval script args callback text c :
      execute JSON_stringify self script args callback = EvalScript text c ->
      settles JSON_stringify fetch self script args callback
        (EvalScript text c)
  | settles_error script args callback message :
      execute JSON_stringify self script args callback = DebugError message ->
      settles JSON_stringify fetch self script args callback
        (DebugError message)
  | settles_get script args callback url a c d :
      execute JSON_stringify self script args callback = Get url a c ->
      settles JSON_stringify fetch self (fetch url) a c d ->
      settles JSON_stringify fetch self script args callback d.

(** The states an instance and its host go through: construction, then
    any number of [setProp] calls and theme changes. *)
Inductive reachable (JSON_stringify : JSValue -> option string)
  : CEPExtension -> Host -> Prop :=
  | reach_construct h sheet namespace a h' :
      construct h sheet namespace = Ok (a, h') ->
      reachable JSON_stringify a h'
  | reach_setProp a h name value a' h' :
      reachable JSON_stringify a h ->
      setProp JSON_stringify a h name value = Ok (a', h') ->
      reachable JSON_stringify a' h'
  | reach_update a h info h' :
      reachable JSON_stringify a h ->
      update a h info = Ok h' ->
      reachable JSON_stringify a h'.

(** An integer brought into the channel range. *)
Definition clampZ (z : Z) : Z := Z.max 0 (Z.min 255 z).

(** The number [valueToHex] starts from, for any value: [value + delta]
    when [delta] is a number, [value] when it is [NaN] or absent. *)
Definition shifted_num (value : jsnum) (delta : option jsnum) : jsnum :=
  match delta with
  | None | Some NaN => value
  | Some d => add value d
  end.

(** The listener the constructor registers for theme changes: [update] on
    the skin information the host has at that moment. *)
Definition themeChanged (self : CEPExtension) (h : Host) : result Host :=
  update self h (appSkinInfo h).

(** The text of the rule [update] writes for a skin. *)
Definition body_rule (info : SkinInfo) : string :=
  ("body { color: " ++ reverseColor (panelBackgroundColor info) None
   ++ ";font-size:" ++ pretty (baseFontSize info)
   ++ "px;background-color:" ++ colorToHex (panelBackgroundColor info) None
   ++ " }")%string.

(** The rules of the sheet the instance writes to, if the host has it. *)
Definition sheet_rules (self : CEPExtension) (h : Host)
  : option (list string) :=
  option_map cssRules (stylesheets h !! stylesheet self).

(** The path of the settings file of a namespace. *)
Definition settings_file_of (h : Host) (namespace : string) : string :=
  ((user_data_path h ++ "/" ++ namespace) ++ "/settings.json")%string.

(** Plain JSON data: no [undefined], no function, no built-in object and
    no [NaN], at any depth. *)
Fixpoint json_value (v : JSValue) : bool :=
  match v with
  | JUndefined | JFun _ | JIntrinsic _ => false
  | JNum NaN => false
  | JNum _ => true
  | JNull | JBool _ | JStr _ => true
  | JArr elems => forallb json_value elems
  | JObj props => forallb (fun kv => json_value (snd kv)) props
  end.

(** The characters a JSON value can begin with. *)
Definition value_start (c : ascii) : bool :=
  Ascii.eqb c Json.dquote || Ascii.eqb c "[" || Ascii.eqb c "{"
  || Ascii.eqb c "-" || is_digit c
  || Ascii.eqb c "n" || Ascii.eqb c "t" || Ascii.eqb c "f".

(** The first character of [str] after leading white space, if any. *)
Definition first_char (str : string) : option ascii :=
  head (Json.skip_ws (list_ascii_of_string str)).

(** The declaration [execute] puts before a script run with arguments. *)
Definition args_declaration (JSON_stringify : JSValue -> option string)
  (args : JSValue) : string :=
  ("var args=" ++ stringified JSON_stringify args ++ ";"
   ++ String (ascii_of_nat 10) EmptyString)%string.

(** The host takes on a new skin. *)
Definition set_skin (h : Host) (info : SkinInfo) : Host :=
  mkHost (adobe_cep h) (extension_path h) (user_data_path h) (host_appName h)
    info (files h) (dirs h) (stylesheets h) (theme_listeners h).

(** A series of theme changes: for each skin in turn the host takes it on
    and the listener of the instance runs. *)
Fixpoint theme_changes (skins : list SkinInfo) (self : CEPExtension)
  (h : Host) : result Host :=
  match skins with
  | [] => Ok h
  | info :: rest =>
      match themeChanged self (set_skin h info) with
      | Ok h' => theme_changes rest self h'
      | Throw e => Throw e
      | Unmodelled => Unmodelled
      end
  end.

(** The statement that what [setProp] wrote under [k] is what [getProp]
    reads there, or [null] for a falsy value. *)
Definition reads_back (JSON_stringify : JSValue -> option string)
  (self : CEPExtension) (h : Host) (k : string) (v : JSValue) : Prop :=
  forall self' h',
    setProp JSON_stringify self h k v = Ok (self', h') ->
    getProp self' k = Ok (if truthy v then v else JNull).

(** The statement that [setProp] leaves a map in which [name] is bound to
    [value]. *)
Definition binds_name (JSON_stringify : JSValue -> option string)
  (self : CEPExtension) (h : Host) (name : string) (value : JSValue)
  : Prop :=
  forall self' h',
    setProp JSON_stringify self h name value = Ok (self', h') ->
    exists props',
      settings self' = JObj props' /\ obj_get props' name = Some value.


(** A callback that is not [undefined] and gives [callback.call] nothing
    to call: [null], a number, a string, a boolean, an array, or an object
    that holds no function under [call]. *)
Definition no_callable_call (callback : JSValue) : bool :=
  match callback with
  | JNull | JBool _ | JNum _ | JStr _ | JArr _ => true
  | JObj props =>
      negb (is_function (default JUndefined (obj_get props "call")))
  | JUndefined | JFun _ | JIntrinsic _ => false
  end.

(** * Properties *)

Example colorToHex_red : colorToHex (rgb 255 0 0) None = "#ff0000".
Proof. reflexivity. Qed.

Example colorToHex_black : colorToHex (rgb 0 0 0) None = "#000000".
Proof. reflexivity. Qed.

Example scenario_background :
  colorToHex (rgb 10 20 30) None = "#0a141e"
  /\ reverseColor (rgb 10 20 30) None = "#f5ebe1".
Proof. split; reflexivity. Qed.

(** ** Rounding to a double *)

Section DoubleFacts.

Local Open Scope Q_scope.

Lemma to_double_not_NaN (q : Q) : to_double q <> NaN.
Proof.
  unfold to_double.
  destruct (Z.abs (Qnum (Qred q)) =? 0)%Z; [discriminate|].
  cbv zeta. destruct (Qle_bool _ _); [|discriminate].
  destruct (Qnum (Qred q) <? 0)%Z; discriminate.
Qed.

Lemma Qred_inject_Z (z : Z) : Qred (inject_Z z) = inject_Z z.
Proof.
  unfold Qred, inject_Z.
  pose proof (Z.ggcd_gcd z 1) as Hg.
  pose proof (Z.ggcd_correct_divisors z 1) as Hd.
  destruct (Z.ggcd z 1) as [g [a b]]. cbn [fst snd] in *.
  rewrite Z.gcd_1_r in Hg. subst g. destruct Hd as [Ha Hb].
  rewrite Z.mul_1_l in Ha, Hb. now subst a b.
Qed.

Lemma round_half_even_one (p : Z) : round_half_even p 1 = p.
Proof.
  unfold round_half_even. rewrite Z.mod_1_r, Z.div_1_r. reflexivity.
Qed.

Lemma round_half_even_floor (p d : Z) : (p / d <= round_half_even p d)%Z.
Proof.
  unfold round_half_even. cbv zeta.
  destruct (2 * (p mod d) <? d)%Z; [lia|].
  destruct (d <? 2 * (p mod d))%Z; [lia|].
  destruct (Z.even (p / d)); lia.
Qed.

Lemma pow2_nonneg (e : Z) : (0 <= e)%Z -> pow2 e = inject_Z (2 ^ e).
Proof.
  intros He. unfold pow2. destruct (Z.ltb_spec e 0); [lia|reflexivity].
Qed.

Lemma pow2_neg (e : Z) :
  (e < 0)%Z -> inject_Z (2 ^ (- e)) * pow2 e == 1.
Proof.
  intros He. unfold pow2. destruct (Z.ltb_spec e 0); [|lia].
  assert (Hp : (0 < 2 ^ (- e))%Z) by (apply Z.pow_pos_nonneg; lia).
  unfold Qeq, Qmult, inject_Z; cbn [Qnum Qden].
  rewrite Pos2Z.inj_mul, Z2Pos.id by exact Hp. ring.
Qed.

(** An integer below [2 ^ 53] in magnitude is a double. *)
Lemma to_double_integer (q : Q) (z : Z) :
  q == inject_Z z -> (Z.abs z < 2 ^ 53)%Z ->
  to_double q = Fin (inject_Z z).
Proof.
  intros Hq Hz. unfold to_double.
  rewrite (Qred_complete _ _ Hq), Qred_inject_Z.
  cbn [Qnum Qden inject_Z]. cbv zeta.
  destruct (Z.eqb_spec (Z.abs z) 0) as [H0|H0].
  { assert (z = 0%Z) by lia. subst z. reflexivity. }
  set (n := Z.abs z) in *.
  assert (Hn : (0 < n)%Z) by lia.
  change (Z.log2 1) with 0%Z. rewrite Z.sub_0_r.
  pose proof (Z.log2_spec n Hn) as [Hlo Hhi].
  pose proof (Z.log2_nonneg n) as He.
  assert (He53 : (Z.log2 n < 53)%Z) by (apply Z.log2_lt_pow2; lia).
  assert (Htest : Qle_bool (pow2 (Z.log2 n)) (n # 1) = true).
  { rewrite pow2_nonneg by exact He. apply Qle_bool_iff.
    change (n # 1) with (inject_Z n). now rewrite <- Zle_Qle. }
  rewrite Htest. rewrite Z.max_l by lia.
  set (k := (Z.log2 n - 52)%Z).
  assert (Hr : inject_Z
                 (if (k <? 0)%Z then round_half_even (n * 2 ^ (- k)) 1
                  else round_half_even n (1 * 2 ^ k)) * pow2 k
               == inject_Z n).
  { destruct (Z.ltb_spec k 0) as [Hk|Hk].
    - rewrite round_half_even_one, inject_Z_mult, <- Qmult_assoc.
      rewrite pow2_neg by exact Hk. apply Qmult_1_r.
    - assert (k = 0%Z) by lia. replace k with 0%Z.
      change (1 * 2 ^ 0)%Z with 1%Z. rewrite round_half_even_one.
      change (pow2 0) with 1. apply Qmult_1_r. }
  assert (Hover : Qle_bool (pow2 1024)
                    (inject_Z
                       (if (k <? 0)%Z then round_half_even (n * 2 ^ (- k)) 1
                        else round_half_even n (1 * 2 ^ k)) * pow2 k)
                  = false).
  { destruct (Qle_bool (pow2 1024) _) eqn:E; [|reflexivity]. exfalso.
    apply Qle_bool_iff in E. rewrite Hr in E.
    rewrite pow2_nonneg in E by lia. rewrite <- Zle_Qle in E.
    assert ((2 ^ 53 < 2 ^ 1024)%Z) by (apply Z.pow_lt_mono_r; lia). lia. }
  rewrite Hover. f_equal.
  rewrite <- (Qred_inject_Z z). apply Qred_complete.
  destruct (Z.ltb_spec z 0) as [Hneg|Hpos].
  - rewrite Hr. unfold n. rewrite Z.abs_neq by lia.
    rewrite inject_Z_opp. apply Qopp_involutive.
  - rewrite Hr. unfold n. now rewrite Z.abs_eq by lia.
Qed.

(** An integer from [2 ^ 53] on in magnitude rounds to a number at least
    as far from zero as [2 ^ 53], on the same side. *)
Lemma to_double_large (q : Q) (z : Z) :
  q == inject_Z z -> (2 ^ 53 <= Z.abs z)%Z ->
  ((0 < z)%Z ->
   to_double q = PInf
   \/ exists r, to_double q = Fin r /\ inject_Z (2 ^ 53) <= r)
  /\ ((z < 0)%Z ->
      to_double q = NInf
      \/ exists r, to_double q = Fin r /\ r <= - inject_Z (2 ^ 53)).
Proof.
  intros Hq Hz. unfold to_double.
  rewrite (Qred_complete _ _ Hq), Qred_inject_Z.
  cbn [Qnum Qden inject_Z]. cbv zeta.
  assert (Hpow : (0 < 2 ^ 53)%Z) by reflexivity.
  destruct (Z.eqb_spec (Z.abs z) 0) as [H0|H0]; [lia|].
  set (n := Z.abs z) in *.
  assert (Hn : (0 < n)%Z) by lia.
  change (Z.log2 1) with 0%Z. rewrite Z.sub_0_r.
  pose proof (Z.log2_spec n Hn) as [Hlo Hhi].
  assert (He53 : (53 <= Z.log2 n)%Z).
  { change 53%Z with (Z.log2 (2 ^ 53)). now apply Z.log2_le_mono. }
  assert (Htest : Qle_bool (pow2 (Z.log2 n)) (n # 1) = true).
  { rewrite pow2_nonneg by lia. apply Qle_bool_iff.
    change (n # 1) with (inject_Z n). now rewrite <- Zle_Qle. }
  rewrite Htest. rewrite Z.max_l by lia.
  set (k := (Z.log2 n - 52)%Z).
  assert (Hk : (1 <= k)%Z) by (unfold k; lia).
  destruct (Z.ltb_spec k 0) as [Hk0|_]; [lia|].
  rewrite Z.mul_1_l.
  set (m := round_half_even n (2 ^ k)).
  assert (Hm : (2 ^ 52 <= m)%Z).
  { eapply Z.le_trans; [|apply round_half_even_floor].
    apply Z.div_le_lower_bound; [apply Z.pow_pos_nonneg; lia|].
    rewrite <- Z.pow_add_r by lia.
    replace (k + 52)%Z with (Z.log2 n) by (unfold k; lia). exact Hlo. }
  assert (Hr : inject_Z (2 ^ 53) <= inject_Z m * pow2 k).
  { rewrite pow2_nonneg by lia. rewrite <- inject_Z_mult, <- Zle_Qle.
    assert ((2 <= 2 ^ k)%Z).
    { change 2%Z with (2 ^ 1)%Z at 1. apply Z.pow_le_mono_r; lia. }
    change (2 ^ 53)%Z with (2 ^ 52 * 2)%Z. nia. }
  split; intros Hsign.
  - destruct (Z.ltb_spec z 0); [lia|].
    destruct (Qle_bool (pow2 1024) _); [now left|]. right.
    eexists. split; [reflexivity|]. now rewrite Qred_correct.
  - destruct (Z.ltb_spec z 0); [|lia].
    destruct (Qle_bool (pow2 1024) _); [now left|]. right.
    eexists. split; [reflexivity|]. rewrite Qred_correct.
    now apply Qopp_le_compat.
Qed.

End DoubleFacts.

(** ** Colour transform *)

Section ColourFacts.

Local Open Scope Q_scope.

Lemma hex_digit_lower (d : Z) : is_lower_hex (hex_digit d) = true.
Proof.
  destruct d as [|p|p]; try reflexivity.
  do 4 (try destruct p as [p|p|]); reflexivity.
Qed.

Lemma hex_pair_length (n : Z) : String.length (hex_pair n) = 2%nat.
Proof. reflexivity. Qed.

Lemma hex_pair_lower (n : Z) : all_chars is_lower_hex (hex_pair n) = true.
Proof.
  unfold hex_pair; simpl. now rewrite !hex_digit_lower.
Qed.

(** [toString(16)] followed by the padding of [valueToHex] is the
    two-digit rendering, on every integer of the channel range. *)
Lemma pad_toString16 (n : Z) :
  (0 <= n <= 255)%Z ->
  (if Nat.eqb (String.length (int_toString16 n)) 1
   then String "0" (int_toString16 n) else int_toString16 n) = hex_pair n.
Proof.
  intros Hn.
  assert (Hin : In (Z.to_nat n) (seq 0 256)) by (apply in_seq; lia).
  assert (Hall : forallb (fun k =>
            let m := Z.of_nat k in
            String.eqb
              (if Nat.eqb (String.length (int_toString16 m)) 1
               then String "0" (int_toString16 m) else int_toString16 m)
              (hex_pair m)) (seq 0 256) = true) by (vm_compute; reflexivity).
  rewrite forallb_forall in Hall. specialize (Hall _ Hin). cbv zeta in Hall.
  rewrite Z2Nat.id in Hall by lia. now apply String.eqb_eq in Hall.
Qed.

Lemma Qfloor_half_range (c : Q) :
  0 <= c <= 255 -> (0 <= Qfloor (c + (1 # 2)) <= 255)%Z.
Proof.
  intros [Hlo Hhi]. split.
  - change 0%Z with (Qfloor 0). apply Qfloor_resp_le.
    apply Qle_trans with c; [exact Hlo|].
    rewrite <- (Qplus_0_r c) at 1. apply Qplus_le_r. discriminate.
  - change 255%Z with (Qfloor (255 + (1 # 2))). apply Qfloor_resp_le.
    apply Qplus_le_l. exact Hhi.
Qed.

(** The first assignment of [valueToHex] computes [shifted]. *)
Lemma shift_step (v : Q) (d : option jsnum) :
  match d with
  | Some d' => if negb (isNaN d') then add (Fin v) d' else Fin v
  | None => Fin v
  end = shifted v d.
Proof. destruct d as [[| | |x]|]; reflexivity. Qed.

Lemma shifted_not_NaN (v : Q) (d : option jsnum) : shifted v d <> NaN.
Proof.
  destruct d as [[| | |x]|]; try discriminate. apply to_double_not_NaN.
Qed.

(** The two comparisons of [valueToHex] bring the value into the range. *)
Lemma clamp_step (x : jsnum) :
  x <> NaN ->
  exists c : Q,
    (if lt x (of_Z 0) then of_Z 0
     else if gt x (of_Z 255) then of_Z 255 else x) = Fin c
    /\ c == clamped x /\ 0 <= c <= 255.
Proof.
  intros Hx. destruct x as [| | |q]; [congruence| | |].
  - exists 255. repeat split; try reflexivity; discriminate.
  - exists 0. repeat split; try reflexivity; discriminate.
  - unfold lt, gt, lt, of_Z, clamped.
    destruct (Qle_bool (inject_Z 0) q) eqn:H0; simpl.
    + apply Qle_bool_iff in H0.
      destruct (Qle_bool q (inject_Z 255)) eqn:H1; simpl.
      * apply Qle_bool_iff in H1. exists q. split; [reflexivity|]. split.
        -- rewrite (Q.min_r 255 q) by exact H1.
           rewrite (Q.max_r 0 q) by exact H0. reflexivity.
        -- split; assumption.
      * assert (Hgt : 255 < q).
        { apply Qnot_le_lt. intros Hle. apply Qle_bool_iff in Hle.
          change (inject_Z 255) with 255 in H1. congruence. }
        exists (inject_Z 255). split; [reflexivity|]. split.
        -- rewrite (Q.min_l 255 q) by (apply Qlt_le_weak; exact Hgt).
           rewrite (Q.max_r 0 255) by discriminate. reflexivity.
        -- split; discriminate.
    + assert (Hlt : q < 0).
      { apply Qnot_le_lt. intros Hle. apply Qle_bool_iff in Hle.
        change (inject_Z 0) with 0 in H0. congruence. }
      exists (inject_Z 0). split; [reflexivity|]. split.
      * assert (Hq : q <= 255).
        { apply Qle_trans with 0; [apply Qlt_le_weak; exact Hlt|discriminate]. }
        rewrite (Q.min_r 255 q) by exact Hq.
        rewrite (Q.max_l 0 q) by (apply Qlt_le_weak; exact Hlt). reflexivity.
      * split; discriminate.
Qed.

Lemma Qfloor_half_nearest (c : Q) : nearest c (Qfloor (c + (1 # 2))).
Proof.
  unfold nearest. split.
  - pose proof (Qlt_floor (c + (1 # 2))) as H.
    rewrite inject_Z_plus in H.
    apply Qplus_lt_l with (z := 1). 
    eapply Qle_lt_trans; [|exact H].
    assert (E : c - (1 # 2) + 1 == c + (1 # 2)) by ring.
    rewrite E. apply Qle_refl.
  - apply Qfloor_le.
Qed.

(** One channel: [valueToHex] prints, as two lowercase digits, the integer
    nearest to the clamped sum. *)
Lemma valueToHex_channel (v : Q) (d : option jsnum) :
  exists n : Z,
    (0 <= n <= 255)%Z
    /\ nearest (clamped (shifted v d)) n
    /\ valueToHex (Fin v) d = hex_pair n.
Proof.
  unfold valueToHex. rewrite shift_step.
  destruct (clamp_step (shifted v d) (shifted_not_NaN v d))
    as (c & Hc & Heq & Hrange).
  rewrite Hc. exists (Qfloor (c + (1 # 2))).
  pose proof (Qfloor_half_range c Hrange) as Hn.
  split; [exact Hn|]. split.
  - pose proof (Qfloor_half_nearest c) as [H1 H2]. unfold nearest.
    rewrite <- Heq. split; assumption.
  - cbn [Math_round toString16]. apply pad_toString16. exact Hn.
Qed.

End ColourFacts.

Lemma valueToHex_encodes (v : Q) (d : option jsnum) :
  exists n : Z, encodes v d n (valueToHex (Fin v) d).
Proof.
  destruct (valueToHex_channel v d) as (n & Hn & Hnear & Htext).
  exists n. unfold encodes. rewrite Htext.
  repeat split; try tauto; try apply Hnear.
  apply hex_pair_lower.
Qed.

Example valueToHex_five : valueToHex (of_Z 5) None = "05".
Proof. reflexivity. Qed.

Example valueToHex_clamps :
  valueToHex (of_Z 250) (Some (of_Z 10)) = "ff"
  /\ valueToHex (of_Z 5) (Some (of_Z (-10))) = "00"
  /\ valueToHex (of_Z 5) (Some NaN) = "05".
Proof. repeat split. Qed.

(** C3. Every finite channel value [v] (so every one in [0,255]) and every
    delta [d]: [valueToHex] adds [d] to [v] when [d] is a number and leaves
    [v] as it is when [d] is [NaN] or absent ([shifted]), clamps the sum to
    [0,255] ([clamped]), rounds to the nearest integer ([nearest]) and
    prints exactly two lowercase, zero-padded radix-16 digits; [colorToHex]
    is [#] followed by the three channel encodings. *)
Theorem colorToHex_encoding (r g b : Q) (d : option jsnum) :
  exists nr ng nb : Z,
    encodes r d nr (valueToHex (Fin r) d)
    /\ encodes g d ng (valueToHex (Fin g) d)
    /\ encodes b d nb (valueToHex (Fin b) d)
    /\ colorToHex (mkColor (Fin r) (Fin g) (Fin b)) d
       = String "#" (hex_pair nr ++ hex_pair ng ++ hex_pair nb)%string.
Proof.
  destruct (valueToHex_encodes r d) as (nr & Hr).
  destruct (valueToHex_encodes g d) as (ng & Hg).
  destruct (valueToHex_encodes b d) as (nb & Hb).
  exists nr, ng, nb. repeat (split; [assumption|]).
  unfold colorToHex; cbn [red green blue].
  destruct Hr as (_ & _ & -> & _), Hg as (_ & _ & -> & _),
    Hb as (_ & _ & -> & _).
  reflexivity.
Qed.

Lemma sub_of_Z (a c : Z) :
  (inject_Z a + - inject_Z c == inject_Z (a - c))%Q.
Proof.
  rewrite <- inject_Z_opp, <- inject_Z_plus. apply Qeq_refl.
Qed.

Lemma reverse_channel_of_Z (c : Z) :
  Z.abs (255 - c) < 2 ^ 53 ->
  reverse_channel (of_Z c) = of_Z (Z.abs (255 - c)).
Proof.
  intros Hc. unfold reverse_channel, sub, neg, of_Z. cbn [add].
  rewrite (to_double_integer _ (255 - c) (sub_of_Z 255 c) Hc).
  reflexivity.
Qed.

Lemma reverse_channel_involutive (c : Z) :
  0 <= c <= 255 -> reverse_channel (reverse_channel (of_Z c)) = of_Z c.
Proof.
  intros Hc.
  assert (Hp : 2 ^ 53 = 9007199254740992) by reflexivity.
  rewrite !reverse_channel_of_Z by lia. f_equal. lia.
Qed.

(** C6. For integer channels in [0,255], inverting a colour twice with
    [c |-> |255 - c|], the inversion [reverseColor] applies, gives the
    colour back; so with no delta, [reverseColor] of the inverted colour is
    the encoding of the original one. *)
Theorem reversed_involutive (r g b : Z) :
  0 <= r <= 255 -> 0 <= g <= 255 -> 0 <= b <= 255 ->
  reversed (reversed (rgb r g b)) = rgb r g b
  /\ reverseColor (reversed (rgb r g b)) None = colorToHex (rgb r g b) None.
Proof.
  intros Hr Hg Hb.
  assert (H : reversed (reversed (rgb r g b)) = rgb r g b).
  { unfold reversed, rgb; cbn [red green blue].
    now rewrite !reverse_channel_involutive. }
  split; [exact H|]. unfold reverseColor. now rewrite H.
Qed.

Lemma reversed_involutive_witness :
  reversed (reversed (rgb 10 20 30)) = rgb 10 20 30
  /\ reverseColor (reversed (rgb 10 20 30)) None
     = colorToHex (rgb 10 20 30) None.
Proof. apply (reversed_involutive 10 20 30); lia. Defined.

(** ** The parser always has enough fuel *)

Module JsonFacts.
Import Json.

Lemma skip_ws_length (cs : list ascii) :
  (List.length (skip_ws cs) <= List.length cs)%nat.
Proof.
  induction cs as [|c cs IH]; simpl; [lia|].
  destruct (is_ws c); simpl; lia.
Qed.

Lemma skip_ws_cons_length (cs : list ascii) (c : ascii) (r : list ascii) :
  skip_ws cs = c :: r -> (List.length r < List.length cs)%nat.
Proof.
  intros H. pose proof (skip_ws_length cs) as L. rewrite H in L.
  simpl in L. lia.
Qed.

Lemma take_digits_length (cs ds r : list ascii) :
  take_digits cs = (ds, r) ->
  List.length cs = (List.length ds + List.length r)%nat.
Proof.
  revert ds r. induction cs as [|c cs IH]; intros ds r H; simpl in H.
  - inversion H; reflexivity.
  - destruct (is_digit c).
    + destruct (take_digits cs) as [ds' r'] eqn:E. inversion H; subst.
      simpl. rewrite (IH ds' r eq_refl). reflexivity.
    + inversion H; subst. reflexivity.
Qed.

Lemma parse_chars_sound (n : nat) :
  forall cs acc,
    (List.length cs <= n)%nat ->
    parse_chars cs acc <> POutOfFuel
    /\ forall body r, parse_chars cs acc = POk body r ->
                      (List.length r < List.length cs)%nat.
Proof.
  induction n as [|n IH]; intros cs acc Hlen.
  - destruct cs; [|simpl in Hlen; lia]. simpl. split; [discriminate|].
    intros; discriminate.
  - destruct cs as [|c cs]; [simpl; split; [discriminate|intros; discriminate]|].
    simpl in Hlen. cbn [parse_chars].
    destruct (Ascii.eqb c dquote).
    { split; [discriminate|]. intros ? ? [= <- <-]. simpl. lia. }
    destruct (Ascii.eqb c "\").
    + destruct cs as [|e cs]; [split; [discriminate|intros; discriminate]|].
      simpl in Hlen.
      assert (Hsimple : forall x,
                 parse_chars cs (x :: acc) <> POutOfFuel
                 /\ forall body r, parse_chars cs (x :: acc) = POk body r ->
                      (List.length r < List.length (c :: e :: cs))%nat).
      { intros x. destruct (IH cs (x :: acc) ltac:(lia)) as [H1 H2].
        split; [exact H1|]. intros body r H. specialize (H2 _ _ H).
        simpl. lia. }
      destruct (Ascii.eqb e "u").
      * destruct cs as [|h1 [|h2 [|h3 [|h4 cs3]]]];
          try (split; [discriminate|intros; discriminate]).
        destruct (hex_value h1), (hex_value h2), (hex_value h3),
          (hex_value h4); try (split; [discriminate|intros; discriminate]).
        simpl in Hlen.
        match goal with
        | |- parse_chars cs3 ?a <> _ /\ _ =>
            destruct (IH cs3 a ltac:(lia)) as [H1 H2]
        end.
        split; [exact H1|]. intros body r H. specialize (H2 _ _ H).
        simpl. lia.
      * cbv zeta.
        repeat match goal with
               | |- context [if ?b then _ else _] => destruct b
               end; try apply Hsimple;
          split; [discriminate|intros; discriminate].
    + destruct (nat_of_ascii c <? 32)%nat.
      * split; [discriminate|intros; discriminate].
      * destruct (IH cs (c :: acc) ltac:(lia)) as [H1 H2].
        split; [exact H1|]. intros body r H. specialize (H2 _ _ H).
        simpl. lia.
Qed.

Lemma parse_string_fuel (cs : list ascii) : parse_string cs <> POutOfFuel.
Proof.
  unfold parse_string.
  destruct (parse_chars_sound (List.length cs) cs [] (le_n _)) as [H _].
  destruct (parse_chars cs []); congruence.
Qed.

Lemma parse_string_length (cs : list ascii) (s : string) (r : list ascii) :
  parse_string cs = POk s r -> (List.length r < List.length cs)%nat.
Proof.
  unfold parse_string.
  destruct (parse_chars_sound (List.length cs) cs [] (le_n _)) as [_ H].
  destruct (parse_chars cs []) eqn:E; try discriminate.
  intros [= <- <-]. eapply H. reflexivity.
Qed.

Ltac digits_lengths :=
  repeat match goal with
         | H : take_digits _ = (_, _) |- _ =>
             apply take_digits_length in H
         end.

Lemma parse_number_fuel (cs : list ascii) : parse_number cs <> POutOfFuel.
Proof.
  unfold parse_number. repeat case_match; discriminate.
Qed.

Lemma parse_number_length (cs : list ascii) (v : JSValue) (r : list ascii) :
  parse_number cs = POk v r -> (List.length r < List.length cs)%nat.
Proof.
  unfold parse_number. intros H.
  repeat case_match; simplify_eq; digits_lengths;
    cbn [List.length] in *; rewrite ?length_app in *;
    cbn [List.length] in *; lia.
Qed.

Lemma strip_prefix_length (word : string) (cs r : list ascii) :
  strip_prefix word cs = Some r ->
  List.length cs = (String.length word + List.length r)%nat.
Proof.
  revert cs. induction word as [|w word IH]; intros cs H; simpl in H.
  - inversion H; reflexivity.
  - destruct cs as [|c cs]; [discriminate|].
    destruct (Ascii.eqb c w); [|discriminate].
    simpl. rewrite (IH _ H). reflexivity.
Qed.

(** Every successful parse consumes at least one character. *)
Lemma parse_rec_length (n : nat) :
  (forall cs v r, parse_value n cs = POk v r ->
                  (List.length r < List.length cs)%nat)
  /\ (forall cs acc v r, parse_elements n cs acc = POk v r ->
                         (List.length r < List.length cs)%nat)
  /\ (forall cs acc v r, parse_members n cs acc = POk v r ->
                         (List.length r < List.length cs)%nat).
Proof.
  induction n as [|n (IHv & IHe & IHm)];
    [repeat split; intros; discriminate|].
  repeat split.
  - intros cs v r H. cbn [parse_value] in H.
    repeat case_match; simplify_eq;
      repeat match goal with
             | H : skip_ws _ = _ :: _ |- _ => apply skip_ws_cons_length in H
             | H : parse_string _ = POk _ _ |- _ =>
                 apply parse_string_length in H
             | H : parse_number _ = POk _ _ |- _ =>
                 apply parse_number_length in H
             | H : strip_prefix _ _ = Some _ |- _ =>
                 apply strip_prefix_length in H
             | H : parse_elements n _ _ = POk _ _ |- _ => apply IHe in H
             | H : parse_members n _ _ = POk _ _ |- _ => apply IHm in H
             end; cbn [List.length String.length] in *; lia.
  - intros cs acc v r H. cbn [parse_elements] in H.
    repeat case_match; simplify_eq;
      repeat match goal with
             | H : skip_ws _ = _ :: _ |- _ => apply skip_ws_cons_length in H
             | H : parse_value n _ = POk _ _ |- _ => apply IHv in H
             | H : parse_elements n _ _ = POk _ _ |- _ => apply IHe in H
             end; cbn [List.length] in *; lia.
  - intros cs acc v r H. cbn [parse_members] in H.
    repeat case_match; simplify_eq;
      repeat match goal with
             | H : skip_ws _ = _ :: _ |- _ => apply skip_ws_cons_length in H
             | H : parse_string _ = POk _ _ |- _ =>
                 apply parse_string_length in H
             | H : parse_value n _ = POk _ _ |- _ => apply IHv in H
             | H : parse_members n _ _ = POk _ _ |- _ => apply IHm in H
             end; cbn [List.length] in *; lia.
Qed.

Ltac consumed :=
  repeat match goal with
         | H : skip_ws _ = _ :: _ |- _ => apply skip_ws_cons_length in H
         | H : parse_string _ = POk _ _ |- _ => apply parse_string_length in H
         | H : parse_value ?n _ = POk _ _ |- _ =>
             apply (proj1 (parse_rec_length n)) in H
         end; cbn [List.length] in *.

(** With fuel linear in the length of the input the parser never gives up:
    it answers with a value or with a syntax error. *)
Lemma parse_rec_fuel (n : nat) :
  (forall cs, (2 * List.length cs + 1 <= n)%nat ->
              parse_value n cs <> POutOfFuel)
  /\ (forall cs acc, (2 * List.length cs + 2 <= n)%nat ->
                     parse_elements n cs acc <> POutOfFuel)
  /\ (forall cs acc, (2 * List.length cs + 2 <= n)%nat ->
                     parse_members n cs acc <> POutOfFuel).
Proof.
  induction n as [|n (IHv & IHe & IHm)]; [repeat split; intros; lia|].
  repeat split.
  - intros cs Hn. cbn [parse_value].
    repeat case_match; try discriminate;
      try (exfalso; eapply parse_string_fuel; eassumption);
      try apply parse_number_fuel;
      consumed; first [apply IHe | apply IHm]; lia.
  - intros cs acc Hn. cbn [parse_elements].
    repeat case_match; try discriminate;
      try (exfalso; eapply IHv; [|eassumption]; lia);
      consumed; apply IHe; lia.
  - intros cs acc Hn. cbn [parse_members].
    repeat case_match; try discriminate;
      try (exfalso; eapply parse_string_fuel; eassumption);
      try (exfalso; consumed; eapply IHv; [|eassumption]; lia);
      consumed; apply IHm; lia.
Qed.

(** [Json.parse] answers every text with a value or a syntax error. *)
Lemma parse_total (text : string) : parse text <> POutOfFuel.
Proof.
  unfold parse.
  pose proof (proj1 (parse_rec_fuel (fuel_for (list_ascii_of_string text)))
                (list_ascii_of_string text)) as H.
  destruct (parse_value _ _) as [v rest| |] eqn:E.
  - destruct (skip_ws rest); discriminate.
  - discriminate.
  - exfalso. apply H; [unfold fuel_for; lia|reflexivity].
Qed.

End JsonFacts.

(** ** Deserialization *)

Lemma JSON_parse_eq (text : string) :
  JSON_parse text = match Json.parse text with
                    | Json.POk v _ => Some v
                    | _ => None
                    end.
Proof. reflexivity. Qed.

Lemma parse_rest_nil (text : string) (v : JSValue) (rest : list ascii) :
  Json.parse text = Json.POk v rest -> rest = [].
Proof.
  unfold Json.parse. repeat case_match; congruence.
Qed.

(** C4. [unserialize] is a three-way split: the literal [undefined] gives
    the absent value; any other text that parses as JSON gives the parsed
    value; any other text, which is then a syntax error, is returned as it
    is.  The three cases cover every input, and the text of one opening
    brace comes back unchanged. *)
Theorem unserialize_three_way (str : string) :
  ((str = "undefined" /\ unserialize str = JUndefined)
   \/ (str <> "undefined"
       /\ exists v, Json.parse str = Json.POk v [] /\ unserialize str = v)
   \/ (str <> "undefined"
       /\ Json.parse str = Json.PSyntaxError /\ unserialize str = JStr str))
  /\ unserialize "{" = JStr "{"
  /\ unserialize "undefined" = JUndefined.
Proof.
  split; [|split; reflexivity].
  unfold unserialize. destruct (String.eqb_spec str "undefined") as [E|E].
  - left. split; [exact E|reflexivity].
  - right. rewrite JSON_parse_eq.
    destruct (Json.parse str) as [v rest| |] eqn:P.
    + left. split; [exact E|]. exists v.
      rewrite (parse_rest_nil _ _ _ P). split; reflexivity.
    + right. split; [exact E|]. split; reflexivity.
    + exfalso. exact (JsonFacts.parse_total str P).
Qed.

(** ** Initial load of the settings *)

Lemma js_or_unserialize (text : string) :
  js_or (unserialize text) (JObj []) = loaded_settings text.
Proof.
  unfold loaded_settings, unserialize, js_or.
  destruct (String.eqb_spec text EmptyString) as [->|Hne]; [reflexivity|].
  destruct (String.eqb text "undefined"); [reflexivity|].
  destruct (JSON_parse text) as [v|]; [reflexivity|].
  cbn [truthy]. destruct (String.eqb_spec text EmptyString); [contradiction|].
  reflexivity.
Qed.

Lemma construct_inv (h : Host) (sheet namespace : string)
  (a : CEPExtension) (h' : Host) :
  construct h sheet namespace = Ok (a, h') ->
  adobe_cep h = true
  /\ a = mkCEPExtension sheet true (extension_path h)
           (user_data_path h ++ "/" ++ namespace)
           ((user_data_path h ++ "/" ++ namespace) ++ "/settings.json")
           (loaded_settings
              (readFile h
                 ((user_data_path h ++ "/" ++ namespace)
                    ++ "/settings.json")))
           (host_appName h) (String.eqb (host_appName h) "FLPR").
Proof.
  unfold construct. destruct (adobe_cep h) eqn:Hcep; [|discriminate].
  cbn [negb]. rewrite js_or_unserialize.
  destruct (update _ _ _) as [h1| |]; try discriminate.
  intros [= <- _]. split; reflexivity.
Qed.

(** C1, as stated, fails: a settings file holding an unfinished object is
    invalid JSON, and the settings value loaded from it is that text, a
    string and not an object. *)
Lemma loads_an_object_counterexample :
  ~ loads_an_object (example_host (Some "{")) "#theme" "com.example.App".
Proof.
  intros H.
  destruct (construct (example_host (Some "{")) "#theme" "com.example.App")
    as [[a h']| |] eqn:E; [|vm_compute in E; discriminate ..].
  destruct (H a h' E) as [Hobj _].
  apply construct_inv in E. destruct E as [_ ->].
  vm_compute in Hobj. discriminate.
Qed.

(** C1, amended. After a successful construction the settings value is
    determined by the text of the settings file as [loaded_settings] says:
    it is the empty object when there is no file or the text is empty, and
    it is the parsed object when the text is a JSON object; a text that is
    not valid JSON, not empty and not the literal [undefined] is kept as it
    is, a string. *)
Theorem construct_settings (h : Host) (sheet namespace : string)
  (a : CEPExtension) (h' : Host) :
  construct h sheet namespace = Ok (a, h') ->
  let text := readFile h (settingsFile a) in
  settingsFile a
  = ((user_data_path h ++ "/" ++ namespace) ++ "/settings.json")%string
  /\ settings a = loaded_settings text
  /\ (files h !! settingsFile a = None -> settings a = JObj [])
  /\ (forall props, JSON_parse text = Some (JObj props) ->
                    settings a = JObj props)
  /\ (text <> EmptyString -> text <> "undefined" ->
      JSON_parse text = None -> settings a = JStr text).
Proof.
  intros E text. apply construct_inv in E. destruct E as [_ Ha].
  assert (Hs : settings a = loaded_settings text) by (subst a; reflexivity).
  split; [subst a; reflexivity|]. split; [exact Hs|].
  rewrite Hs. unfold loaded_settings. repeat split.
  - intros Hnone. unfold text, readFile. now rewrite Hnone.
  - intros props Hp.
    destruct (String.eqb_spec text EmptyString) as [E|_];
      [rewrite E in Hp; vm_compute in Hp; discriminate|].
    destruct (String.eqb_spec text "undefined") as [E|_];
      [rewrite E in Hp; vm_compute in Hp; discriminate|].
    now rewrite Hp.
  - intros Hne Hnu Hp.
    destruct (String.eqb_spec text EmptyString) as [E|_]; [contradiction|].
    destruct (String.eqb_spec text "undefined") as [E|_]; [contradiction|].
    now rewrite Hp.
Qed.

Lemma construct_settings_witness :
  exists a h',
    construct (example_host None) "#theme" "com.example.App" = Ok (a, h')
    /\ settings a = JObj [].
Proof.
  assert (E : { p | construct (example_host None) "#theme" "com.example.App"
                    = Ok p }).
  { eexists. vm_compute. reflexivity. }
  destruct E as [[a h'] E]. exists a, h'. split; [exact E|].
  pose proof (construct_settings _ _ _ _ _ E) as (HF & _ & Hnone & _).
  apply Hnone. rewrite HF. reflexivity.
Defined.

(** ** Settings store *)

Lemma obj_get_replace_eq (props : list (string * JSValue)) (name : string)
  (v : JSValue) :
  obj_has props name = true ->
  obj_get (obj_replace props name v) name = Some v.
Proof.
  unfold obj_has. induction props as [|[k w] props IH]; simpl; [discriminate|].
  destruct (String.eqb k name) eqn:E; simpl; rewrite E; [reflexivity|].
  exact IH.
Qed.

Lemma obj_get_replace_ne (props : list (string * JSValue))
  (name other : string) (v : JSValue) :
  other <> name ->
  obj_get (obj_replace props name v) other = obj_get props other.
Proof.
  intros Hne. induction props as [|[k w] props IH]; simpl; [reflexivity|].
  destruct (String.eqb_spec k name) as [->|Hk]; simpl.
  - destruct (String.eqb_spec name other); [congruence|reflexivity].
  - now rewrite IH.
Qed.

Lemma obj_get_insert_index_eq (props : list (string * JSValue)) (i : Z)
  (name : string) (v : JSValue) :
  obj_get props name = None ->
  obj_get (obj_insert_index props i name v) name = Some v.
Proof.
  induction props as [|[k w] props IH]; simpl.
  - now rewrite String.eqb_refl.
  - destruct (String.eqb k name) eqn:E; [discriminate|]. intros Hrest.
    destruct (array_index k) as [j|]; [destruct (i <? j)|]; simpl;
      rewrite ?String.eqb_refl, ?E; auto.
Qed.

Lemma obj_get_insert_index_ne (props : list (string * JSValue)) (i : Z)
  (name other : string) (v : JSValue) :
  other <> name ->
  obj_get (obj_insert_index props i name v) other = obj_get props other.
Proof.
  intros Hne.
  assert (Hno : String.eqb name other = false)
    by (apply String.eqb_neq; congruence).
  induction props as [|[k w] props IH]; simpl.
  - now rewrite Hno.
  - destruct (array_index k) as [j|]; [destruct (i <? j)|]; simpl;
      rewrite ?Hno, ?IH; reflexivity.
Qed.

Lemma obj_get_app (props more : list (string * JSValue)) (name : string) :
  obj_get (props ++ more) name
  = match obj_get props name with
    | Some v => Some v
    | None => obj_get more name
    end.
Proof.
  induction props as [|[k w] props IH]; simpl; [reflexivity|].
  destruct (String.eqb k name); [reflexivity|exact IH].
Qed.

(** Reading back the key just written. *)
Lemma obj_get_set_eq (props : list (string * JSValue)) (name : string)
  (v : JSValue) :
  obj_get (obj_set props name v) name = Some v.
Proof.
  unfold obj_set. destruct (obj_has props name) eqn:Hhas.
  - now apply obj_get_replace_eq.
  - assert (Hnone : obj_get props name = None).
    { unfold obj_has in Hhas. destruct (obj_get props name); congruence. }
    destruct (array_index name) as [i|].
    + now apply obj_get_insert_index_eq.
    + rewrite obj_get_app, Hnone. simpl. now rewrite String.eqb_refl.
Qed.

(** Every other key keeps its binding. *)
Lemma obj_get_set_ne (props : list (string * JSValue)) (name other : string)
  (v : JSValue) :
  other <> name ->
  obj_get (obj_set props name v) other = obj_get props other.
Proof.
  intros Hne. unfold obj_set. destruct (obj_has props name).
  - now apply obj_get_replace_ne.
  - destruct (array_index name) as [i|].
    + now apply obj_get_insert_index_ne.
    + rewrite obj_get_app. simpl.
      destruct (String.eqb_spec name other); [congruence|].
      now destruct (obj_get props other).
Qed.

Section SettingsStore.

Variable JSON_stringify : JSValue -> option string.

(** On a plain object, an assignment to any name but [__proto__] makes or
    overwrites an own property. *)
Lemma prop_set_plain (props : list (string * JSValue)) (name : string)
  (value : JSValue) :
  name <> "__proto__" ->
  prop_set (JObj props) name value = Ok (JObj (obj_set props name value)).
Proof.
  intros Hne. cbn [prop_set].
  destruct (String.eqb_spec name "__proto__"); [contradiction|reflexivity].
Qed.

Lemma setProp_object (self : CEPExtension) (h : Host) (name : string)
  (value : JSValue) (props : list (string * JSValue)) (text : string) :
  settings self = JObj props ->
  name <> "__proto__" ->
  JSON_stringify (JObj (obj_set props name value)) = Some text ->
  setProp JSON_stringify self h name value
  = Ok (with_settings self (JObj (obj_set props name value)),
        writeFile h (settingsFile self) text).
Proof.
  intros Hs Hne Ht. unfold setProp. rewrite Hs, (prop_set_plain _ _ _ Hne).
  cbn [with_settings settings]. rewrite Ht. reflexivity.
Qed.

(** C2, amended. On a settings map and for every key [k] other than
    [__proto__], [setProp(k, v)] followed by [getProp(k)] gives [v] back
    when [v] is truthy and [null], the absent sentinel, when [v] is falsy.
    (The serialization of the updated map is the string [text].) *)
Theorem setProp_then_getProp (self : CEPExtension) (h : Host) (k : string)
  (v : JSValue) (props : list (string * JSValue)) (text : string) :
  settings self = JObj props ->
  k <> "__proto__" ->
  JSON_stringify (JObj (obj_set props k v)) = Some text ->
  exists self' h',
    setProp JSON_stringify self h k v = Ok (self', h')
    /\ getProp self' k = Ok (if truthy v then v else JNull).
Proof.
  intros Hs Hne Ht. eexists _, _.
  split; [exact (setProp_object _ _ _ _ _ _ Hs Hne Ht)|].
  unfold getProp, with_settings; cbn [settings prop_get].
  rewrite obj_get_set_eq. reflexivity.
Qed.

(** C7, amended. On a settings map and for every name other than
    [__proto__], [setProp(name, value)] binds [name] to [value] and leaves
    the binding of every other key as it was; the settings file then holds
    the serialization of the whole updated map and nothing of its former
    content: the one effect on the host is that one [writeFile], and
    nothing else of the instance has changed. *)
Theorem setProp_frame (self : CEPExtension) (h : Host) (name : string)
  (value : JSValue) (props : list (string * JSValue)) (text : string) :
  settings self = JObj props ->
  name <> "__proto__" ->
  JSON_stringify (JObj (obj_set props name value)) = Some text ->
  exists self' h' props',
    setProp JSON_stringify self h name value = Ok (self', h')
    /\ settings self' = JObj props'
    /\ obj_get props' name = Some value
    /\ (forall other, other <> name ->
                      obj_get props' other = obj_get props other)
    /\ JSON_stringify (settings self') = Some text
    /\ readFile h' (settingsFile self) = text
    /\ self' = with_settings self (settings self')
    /\ h' = writeFile h (settingsFile self) text.
Proof.
  intros Hs Hne Ht. eexists _, _, _.
  split; [exact (setProp_object _ _ _ _ _ _ Hs Hne Ht)|].
  cbn [with_settings settings]. split; [reflexivity|].
  split; [apply obj_get_set_eq|].
  split; [intros other Hother; now apply obj_get_set_ne|].
  split; [exact Ht|].
  split; [unfold readFile, writeFile; cbn [files];
          now rewrite lookup_insert_eq|].
  split; reflexivity.
Qed.

End SettingsStore.

(** C2, as stated, fails at the key [__proto__]: on the empty map
    [setProp] stores nothing under it, and [getProp] then answers with
    [Object.prototype], which is not the value written. *)
Lemma reads_back_counterexample :
  ~ reads_back Serialize.stringify (example_adapter (JObj []))
      (example_host None) "__proto__" (JStr "v").
Proof.
  intros H.
  specialize (H (example_adapter (JObj []))
                (writeFile (example_host None)
                   "/data/com.example.App/settings.json" "{}") eq_refl).
  discriminate H.
Qed.

(** C7, as stated, fails at the name [__proto__]: after
    [setProp("__proto__", "v")] on the empty map the map has no binding
    of that name. *)
Lemma binds_name_counterexample :
  ~ binds_name Serialize.stringify (example_adapter (JObj []))
      (example_host None) "__proto__" (JStr "v").
Proof.
  intros H.
  destruct (H (example_adapter (JObj []))
              (writeFile (example_host None)
                 "/data/com.example.App/settings.json" "{}") eq_refl)
    as (props' & Hs & Hget).
  injection Hs as <-. discriminate Hget.
Qed.

Lemma setProp_then_getProp_witness :
  exists self' h',
    setProp Serialize.stringify (example_adapter (JObj []))
      (example_host None) "k" (JStr "v") = Ok (self', h')
    /\ getProp self' "k" = Ok (JStr "v").
Proof.
  eapply (setProp_then_getProp Serialize.stringify
            (example_adapter (JObj [])) (example_host None) "k" (JStr "v") []).
  - reflexivity.
  - discriminate.
  - vm_compute. reflexivity.
Defined.

Lemma setProp_frame_witness :
  exists self' h' props',
    setProp Serialize.stringify
      (example_adapter (JObj [("a", JNum (of_Z 1))]))
      (example_host None) "k" (JBool true) = Ok (self', h')
    /\ settings self' = JObj props'
    /\ obj_get props' "k" = Some (JBool true)
    /\ obj_get props' "a" = Some (JNum (of_Z 1)).
Proof.
  destruct (setProp_frame Serialize.stringify
              (example_adapter (JObj [("a", JNum (of_Z 1))]))
              (example_host None) "k" (JBool true)
              [("a", JNum (of_Z 1))]
              (default EmptyString
                 (Serialize.stringify
                    (JObj [("a", JNum (of_Z 1)); ("k", JBool true)])))
              eq_refl)
    as (self' & h' & props' & E & Hs & Hk & Hother & _).
  - discriminate.
  - vm_compute. reflexivity.
  - exists self', h', props'. repeat split; try assumption.
    rewrite Hother by discriminate. reflexivity.
Defined.

Example setProp_on_text :
  setProp Serialize.stringify (example_adapter (JStr "{")) (example_host None)
    "k" (JStr "v") = Throw TypeError.
Proof. reflexivity. Qed.

Example getProp_falsy :
  forall v, In v [JNum (of_Z 0); JStr EmptyString; JBool false; JNull] ->
  getProp (example_adapter (JObj (obj_set [] "k" v))) "k" = Ok JNull.
Proof.
  intros v Hv. simpl in Hv.
  destruct Hv as [<-|[<-|[<-|[<-|[]]]]]; reflexivity.
Qed.

(** The names a plain object inherits something under. *)
Lemma inherited_Object (name : string) :
  inherited KObject name <> JUndefined
  <-> name = "constructor" \/ name = "__proto__"
      \/ In name (members KObject).
Proof.
  unfold inherited, has_member.
  destruct (String.eqb_spec name "constructor") as [->|Hc];
    [split; [auto|discriminate]|].
  destruct (String.eqb_spec name "__proto__") as [->|Hp];
    [split; [auto|discriminate]|].
  destruct (existsb (String.eqb name) (members KObject)) eqn:E.
  - split; [|discriminate]. intros _. right; right.
    apply existsb_exists in E. destruct E as (x & Hin & Hx).
    apply String.eqb_eq in Hx. now subst.
  - split; [congruence|]. intros [?|[?|Hin]]; try contradiction.
    exfalso. assert (Ht : existsb (String.eqb name) (members KObject) = true).
    { apply existsb_exists. exists name. split; [exact Hin|].
      apply String.eqb_refl. }
    congruence.
Qed.




(** ** The script path pattern *)

Module RegexFacts.
Import Regex.
Local Open Scope list_scope.

Lemma nullable_lang (r : regex) : nullable r = true <-> lang r [].
Proof.
  induction r as [| |p|r1 IH1 r2 IH2|r1 IH1 r2 IH2|r IH]; simpl.
  - split; [discriminate|tauto].
  - tauto.
  - split; [discriminate|]. intros (c & H & _). discriminate.
  - rewrite andb_true_iff, IH1, IH2. split.
    + intros [H1 H2]. exists [], []. auto.
    + intros (s1 & s2 & E & H1 & H2). symmetry in E.
      apply app_eq_nil in E. destruct E; subst. auto.
  - rewrite orb_true_iff, IH1, IH2. tauto.
  - split; [constructor|reflexivity].
Qed.

Lemma star_cons_inv (L : list ascii -> Prop) (t : list ascii) :
  star L t ->
  forall c s, t = c :: s ->
  exists s1 s2, s = s1 ++ s2 /\ L (c :: s1) /\ star L s2.
Proof.
  induction 1 as [|s1 s2 H1 H2 IH]; intros c s E; [discriminate|].
  destruct s1 as [|c1 s1].
  - simpl in E. exact (IH c s E).
  - simpl in E. injection E as -> <-. exists s1, s2. auto.
Qed.

Lemma deriv_lang (r : regex) :
  forall c s, lang (deriv c r) s <-> lang r (c :: s).
Proof.
  induction r as [| |p|r1 IH1 r2 IH2|r1 IH1 r2 IH2|r IH]; intros c s; simpl.
  - tauto.
  - split; [tauto|discriminate].
  - destruct (p c) eqn:Hp; simpl.
    + split.
      * intros ->. exists c. auto.
      * intros (c' & [= <- ->] & _). reflexivity.
    + split; [tauto|]. intros (c' & [= <- ->] & H). congruence.
  - assert (Hcat : lang (Cat (deriv c r1) r2) s
                   <-> exists s1 s2, s = s1 ++ s2
                                     /\ lang r1 (c :: s1) /\ lang r2 s2).
    { simpl. split; intros (s1 & s2 & E & H1 & H2); exists s1, s2;
        (split; [exact E|]); (split; [|exact H2]); now apply IH1. }
    assert (Hsplit : (exists s1 s2, c :: s = s1 ++ s2
                                    /\ lang r1 s1 /\ lang r2 s2)
                     <-> (lang r1 [] /\ lang r2 (c :: s))
                         \/ exists s1 s2, s = s1 ++ s2
                                 /\ lang r1 (c :: s1) /\ lang r2 s2).
    { split.
      - intros (s1 & s2 & E & H1 & H2). destruct s1 as [|c1 s1].
        + left. simpl in E. subst s2. auto.
        + right. simpl in E. injection E as <- ->. exists s1, s2. auto.
      - intros [[H1 H2]|(s1 & s2 & -> & H1 & H2)].
        + exists [], (c :: s). auto.
        + exists (c :: s1), s2. auto. }
    rewrite Hsplit. destruct (nullable r1) eqn:Hn.
    + change (lang (Cat (deriv c r1) r2) s \/ lang (deriv c r2) s
              <-> (lang r1 [] /\ lang r2 (c :: s))
                  \/ (exists s1 s2, s = s1 ++ s2
                         /\ lang r1 (c :: s1) /\ lang r2 s2)).
      rewrite Hcat, IH2. apply nullable_lang in Hn. tauto.
    + rewrite Hcat. split; [tauto|]. intros [[H1 _]|H]; [|exact H].
      apply nullable_lang in H1. congruence.
  - rewrite IH1, IH2. tauto.
  - split.
    + intros (s1 & s2 & -> & H1 & H2). apply IH in H1.
      exact (star_app _ (c :: s1) s2 H1 H2).
    + intros H. destruct (star_cons_inv _ _ H c s eq_refl)
        as (s1 & s2 & -> & H1 & H2).
      exists s1, s2. split; [reflexivity|]. split; [now apply IH|exact H2].
Qed.

(** The matcher decides membership in the language. *)
Lemma matches_lang (s : list ascii) :
  forall r, matches r s = true <-> lang r s.
Proof.
  induction s as [|c s IH]; intros r; simpl.
  - apply nullable_lang.
  - rewrite IH. apply deriv_lang.
Qed.

Lemma lang_Lit (w s : list ascii) : lang (Lit w) s <-> s = w.
Proof.
  revert s. induction w as [|c w IH]; intros s; simpl; [tauto|]. split.
  - intros (s1 & s2 & -> & (c' & -> & Hc) & H2).
    apply Ascii.eqb_eq in Hc. subst c'. apply IH in H2. now subst.
  - intros ->. exists [c], w. split; [reflexivity|]. split.
    + exists c. split; [reflexivity|apply Ascii.eqb_refl].
    + now apply IH.
Qed.

Lemma star_Class (p : ascii -> bool) (s : list ascii) :
  star (lang (Class p)) s <-> forallb p s = true.
Proof.
  split.
  - induction 1 as [|s1 s2 (c & -> & Hc) _ IH]; [reflexivity|].
    simpl. now rewrite Hc, IH.
  - induction s as [|c s IH]; simpl; [constructor|].
    rewrite andb_true_iff. intros [Hc Hs].
    apply (star_app _ [c] s); [exists c; auto|auto].
Qed.

Lemma lang_Plus_Class (p : ascii -> bool) (s : list ascii) :
  lang (Plus (Class p)) s <-> s <> [] /\ forallb p s = true.
Proof.
  unfold Plus. cbn [lang]. split.
  - intros (s1 & s2 & -> & (c & -> & Hc) & H2). apply star_Class in H2.
    split; [discriminate|]. simpl. now rewrite Hc, H2.
  - intros [Hne Hall]. destruct s as [|c s]; [contradiction|].
    simpl in Hall. apply andb_true_iff in Hall. destruct Hall as [Hc Hs].
    exists [c], s. split; [reflexivity|]. split; [exists c; auto|].
    now apply star_Class.
Qed.

(** The language of the pattern of [execute], on lists of characters. *)
Lemma pattern_lang (s : list ascii) :
  lang script_path_pattern s
  <-> exists stem suf,
        s = stem ++ suf
        /\ stem <> []
        /\ forallb path_char stem = true
        /\ (suf = [".";"j";"s"]%char
            \/ suf = [".";"j";"s";"f";"l"]%char
            \/ suf = [".";"j";"s";"x"]%char).
Proof.
  unfold script_path_pattern. cbn [lang]. split.
  - intros (s1 & s2 & -> & H1 & (a & b & -> & Ha & Hb)).
    apply lang_Plus_Class in H1. destruct H1 as [Hne Hall].
    apply lang_Lit in Ha. subst a.
    exists s1, ([".";"j";"s"]%char ++ b). split; [reflexivity|].
    split; [exact Hne|]. split; [exact Hall|].
    unfold Opt in Hb. cbn [lang] in Hb.
    destruct Hb as [[Hb|Hb]|Hb].
    + apply lang_Lit in Hb. subst b. right; left; reflexivity.
    + apply lang_Lit in Hb. subst b. right; right; reflexivity.
    + subst b. left; reflexivity.
  - intros (stem & suf & -> & Hne & Hall & Hsuf).
    exists stem, suf. split; [reflexivity|].
    split; [apply lang_Plus_Class; auto|].
    destruct Hsuf as [-> | [-> | ->]].
    + exists [".";"j";"s"]%char, []. split; [reflexivity|].
      split; [now apply lang_Lit|]. right. reflexivity.
    + exists [".";"j";"s"]%char, ["f";"l"]%char. split; [reflexivity|].
      split; [now apply lang_Lit|]. left; left. now apply lang_Lit.
    + exists [".";"j";"s"]%char, ["x"]%char. split; [reflexivity|].
      split; [now apply lang_Lit|]. left; right. now apply lang_Lit.
Qed.

Lemma all_chars_forallb (p : ascii -> bool) (s : string) :
  all_chars p s = forallb p (list_ascii_of_string s).
Proof.
  induction s as [|c s IH]; simpl; [reflexivity|]. now rewrite IH.
Qed.

Lemma list_ascii_of_string_app (a b : string) :
  list_ascii_of_string (a ++ b)%string
  = list_ascii_of_string a ++ list_ascii_of_string b.
Proof.
  induction a as [|c a IH]; simpl; [reflexivity|]. now rewrite IH.
Qed.

Lemma string_of_list_ascii_app (a b : list ascii) :
  string_of_list_ascii (a ++ b)
  = (string_of_list_ascii a ++ string_of_list_ascii b)%string.
Proof.
  induction a as [|c a IH]; simpl; [reflexivity|]. now rewrite IH.
Qed.

(** The test of [execute] holds exactly of the script paths. *)
Lemma is_script_path_spec (script : string) :
  is_script_path script = true <-> script_path script.
Proof.
  unfold is_script_path, script_path. rewrite matches_lang, pattern_lang.
  rewrite all_chars_forallb. split.
  - intros (stem & suf & E & Hne & Hall & Hsuf). split.
    + rewrite E, forallb_app, Hall.
      destruct Hsuf as [-> | [-> | ->]]; reflexivity.
    + exists (string_of_list_ascii stem), (string_of_list_ascii suf).
      split; [|split].
      * rewrite <- string_of_list_ascii_app, <- E.
        now rewrite string_of_list_ascii_of_string.
      * destruct stem; [contradiction|discriminate].
      * unfold script_extension.
        destruct Hsuf as [-> | [-> | ->]]; simpl; auto.
  - intros (Hall & stem & ext & E & Hne & Hext).
    exists (list_ascii_of_string stem), (list_ascii_of_string ext).
    split; [now rewrite E, list_ascii_of_string_app|].
    split; [destruct stem; [contradiction|discriminate]|].
    rewrite E, list_ascii_of_string_app, forallb_app in Hall.
    apply andb_true_iff in Hall. split; [apply Hall|].
    destruct Hext as [-> | [-> | ->]]; simpl; auto.
Qed.

End RegexFacts.

(** ** Script bridge *)

(** C5, as stated, fails: the bare extension is made of class characters
    and ends in [.js], yet [execute] does not fetch it: it hands it to the
    host as inline source. *)
Lemma path_as_stated_counterexample :
  path_as_stated ".js" = true
  /\ is_script_path ".js" = false
  /\ execute Serialize.stringify (example_adapter (JObj [])) ".js"
       JUndefined JUndefined
     = EvalScript ".js" JUndefined.
Proof. repeat split. Qed.

Section ScriptBridge.

Variable JSON_stringify : JSValue -> option string.

Lemma execute_supported (self : CEPExtension) (script : string)
  (args callback : JSValue) :
  supported self = true ->
  exists a c,
    (a, c) = (if is_function args then (JUndefined, args)
              else (args, callback))
    /\ execute JSON_stringify self script args callback
       = if is_script_path script then Get script a c
         else EvalScript
                (if is_defined a
                 then ("var args=" ++ stringified JSON_stringify a ++ ";"
                       ++ String (ascii_of_nat 10) EmptyString ++ script)%string
                 else script) c.
Proof.
  intros Hs. unfold execute. rewrite Hs.
  destruct (is_function args); eexists _, _; split; reflexivity.
Qed.

(** C5, amended. On a supported host, [execute] treats [script] as a file
    path, fetching it and running [execute] again on the text fetched,
    exactly when [script] is made of class characters only and is a
    non-empty stem followed by [.js], [.jsfl] or [.jsx]; every other
    script is handed to the host as inline source. *)
Theorem execute_path_dispatch (self : CEPExtension) (script : string)
  (args callback : JSValue) :
  supported self = true ->
  ((exists a c, execute JSON_stringify self script args callback
                = Get script a c)
   <-> script_path script)
  /\ ((exists text c, execute JSON_stringify self script args callback
                      = EvalScript text c)
      <-> ~ script_path script)
  /\ (forall a c data,
        on_fetched JSON_stringify self a c data
        = execute JSON_stringify self data a c).
Proof.
  intros Hs.
  destruct (execute_supported self script args callback Hs)
    as (a & c & _ & E).
  rewrite E. rewrite <- RegexFacts.is_script_path_spec.
  split; [|split; [|reflexivity]].
  - destruct (is_script_path script).
    + split; [reflexivity|]. intros _. eauto.
    + split; [|discriminate]. intros (a' & c' & H). discriminate.
  - destruct (is_script_path script).
    + split; [|intros H; now contradiction H].
      intros (text & c' & H). discriminate.
    + split; [discriminate|]. intros _. eauto.
Qed.

(** C8. With a function [f] as second argument, [execute] takes [f] for the
    callback and runs with no arguments: whatever is passed third is
    dropped, an inline script reaches the host as it is, with no
    declaration of [args] put before it, and so does the text of a script
    that had to be fetched first; [f] is called, on the instance, with the
    deserialized response. *)
Theorem execute_callback_second (self : CEPExtension) (script : string)
  (f : nat) (third : JSValue) :
  supported self = true ->
  execute JSON_stringify self script (JFun f) third
  = execute JSON_stringify self script JUndefined (JFun f)
  /\ (is_script_path script = false ->
      execute JSON_stringify self script (JFun f) third
      = EvalScript script (JFun f))
  /\ (is_script_path script = true ->
      execute JSON_stringify self script (JFun f) third
      = Get script JUndefined (JFun f))
  /\ (forall fetch d,
        settles JSON_stringify fetch self script (JFun f) third d ->
        exists text,
          d = EvalScript text (JFun f)
          /\ is_script_path text = false
          /\ (text = script \/ exists url, text = fetch url))
  /\ (forall response,
        on_response self (JFun f) response
        = Call f self (unserialize response)).
Proof.
  intros Hs.
  assert (Hstep : forall s third',
            execute JSON_stringify self s (JFun f) third'
            = if is_script_path s then Get s JUndefined (JFun f)
              else EvalScript s (JFun f)).
  { intros s third'. unfold execute. rewrite Hs. reflexivity. }
  assert (Hnorm : forall s,
            execute JSON_stringify self s JUndefined (JFun f)
            = if is_script_path s then Get s JUndefined (JFun f)
              else EvalScript s (JFun f)).
  { intros s. unfold execute. rewrite Hs. reflexivity. }
  split; [now rewrite Hstep, Hnorm|].
  split; [intros Hp; now rewrite Hstep, Hp|].
  split; [intros Hp; now rewrite Hstep, Hp|].
  split; [|reflexivity].
  intros fetch d Hd.
  assert (Hgen : forall s a c,
            settles JSON_stringify fetch self s a c d ->
            (a = JFun f \/ (a = JUndefined /\ c = JFun f)) ->
            exists text,
              d = EvalScript text (JFun f)
              /\ is_script_path text = false
              /\ (text = s \/ exists url, text = fetch url)).
  { clear Hd. intros s a c H.
    induction H as [s a c text c' E|s a c message E|s a c url a' c' d E _ IH];
      intros Hac.
    - assert (E' : (if is_script_path s then Get s JUndefined (JFun f)
                    else EvalScript s (JFun f)) = EvalScript text c').
      { destruct Hac as [->|[-> ->]];
          [rewrite Hstep in E|rewrite Hnorm in E]; exact E. }
      destruct (is_script_path s) eqn:Hp; [discriminate|].
      injection E' as <- <-. exists s. auto.
    - assert (E' : (if is_script_path s then Get s JUndefined (JFun f)
                    else EvalScript s (JFun f)) = DebugError message).
      { destruct Hac as [->|[-> ->]];
          [rewrite Hstep in E|rewrite Hnorm in E]; exact E. }
      destruct (is_script_path s); discriminate.
    - assert (E' : (if is_script_path s then Get s JUndefined (JFun f)
                    else EvalScript s (JFun f)) = Get url a' c').
      { destruct Hac as [->|[-> ->]];
          [rewrite Hstep in E|rewrite Hnorm in E]; exact E. }
      destruct (is_script_path s); [|discriminate].
      injection E' as <- <- <-.
      destruct (IH (or_intror (conj eq_refl eq_refl)))
        as (text & Hd & Hp & Hsrc).
      exists text. split; [exact Hd|]. split; [exact Hp|].
      right. destruct Hsrc as [->|Hsrc]; [now exists s|exact Hsrc]. }
  apply (Hgen script (JFun f) third Hd). left. reflexivity.
Qed.

(** C9. An instance exists only where the host bridge was detected: the
    constructor throws, leaving the host as it was, when it is not; every
    instance constructed has [supported] set, and keeps it through every
    later [setProp] and theme change; so [execute] never takes its error
    branch on one. *)
Theorem reachable_supported (h : Host) (sheet namespace : string) :
  (adobe_cep h = false ->
   construct h sheet namespace
   = Throw (Thrown (JStr
       "Extension must run as a CEP Extension inside Adobe applications")))
  /\ (forall a h', construct h sheet namespace = Ok (a, h') ->
                   supported a = true)
  /\ (forall a h', reachable JSON_stringify a h' ->
        supported a = true
        /\ forall script args callback message,
             execute JSON_stringify a script args callback
             <> DebugError message).
Proof.
  split; [intros Hc; unfold construct; now rewrite Hc|].
  split.
  - intros a h' E. apply construct_inv in E. destruct E as [_ ->].
    reflexivity.
  - intros a h' Hr.
    assert (Hs : supported a = true).
    { induction Hr as [h0 sh ns a h' E|a h0 name value a' h' _ IH E
                      |a h0 info h' _ IH _].
      - apply construct_inv in E. destruct E as [_ ->]. reflexivity.
      - unfold setProp in E.
        destruct (prop_set (settings a) name value) as [s'| |];
          try discriminate.
        cbn [with_settings settings settingsFile] in E.
        destruct (JSON_stringify s'); try discriminate.
        injection E as <- _. exact IH.
      - exact IH. }
    split; [exact Hs|]. intros script args callback message.
    destruct (execute_supported a script args callback Hs) as (x & c & _ & E).
    rewrite E. destruct (is_script_path script); discriminate.
Qed.

End ScriptBridge.

Lemma execute_path_dispatch_witness :
  supported (example_adapter (JObj [])) = true
  /\ script_path "lib/main.jsx"
  /\ ~ script_path "alert(1)".
Proof.
  split; [reflexivity|].
  pose proof (execute_path_dispatch Serialize.stringify
                (example_adapter (JObj [])) "lib/main.jsx"
                JUndefined JUndefined eq_refl) as (Hget & _ & _).
  pose proof (execute_path_dispatch Serialize.stringify
                (example_adapter (JObj [])) "alert(1)"
                JUndefined JUndefined eq_refl) as (_ & Heval & _).
  split.
  - apply Hget. eexists _, _. reflexivity.
  - apply Heval. eexists _, _. reflexivity.
Defined.

Lemma execute_callback_second_witness :
  supported (example_adapter (JObj [])) = true
  /\ execute Serialize.stringify (example_adapter (JObj [])) "alert(1)"
       (JFun 0) JNull
     = EvalScript "alert(1)" (JFun 0).
Proof.
  split; [reflexivity|].
  apply (execute_callback_second Serialize.stringify
           (example_adapter (JObj [])) "alert(1)" 0%nat JNull eq_refl).
  reflexivity.
Defined.

Lemma reachable_supported_witness :
  exists a h',
    construct (example_host None) "#theme" "com.example.App" = Ok (a, h')
    /\ supported a = true.
Proof.
  assert (E : { p | construct (example_host None) "#theme" "com.example.App"
                    = Ok p }).
  { eexists. vm_compute. reflexivity. }
  destruct E as [[a h'] E]. exists a, h'. split; [exact E|].
  exact (proj1 (proj2 (reachable_supported Serialize.stringify
                         (example_host None) "#theme" "com.example.App"))
           a h' E).
Defined.

(** * Further properties of the code *)

(** ** Colour transform beyond the channel range *)

Section ColourMore.

Local Open Scope Q_scope.

Lemma Qfloor_int_half (z : Z) : Qfloor (inject_Z z + (1 # 2)) = z.
Proof.
  unfold Qfloor, Qplus, inject_Z; cbn [Qnum Qden].
  change (Z.pos (1 * 2)) with 2%Z.
  Z.to_euclidean_division_equations. lia.
Qed.

(** Clamping and rounding, on a number that is an integer. *)
Lemma clamp_round_integer (q : Q) (z : Z) :
  q == inject_Z z ->
  Math_round
    (if lt (Fin q) (of_Z 0) then of_Z 0
     else if gt (Fin q) (of_Z 255) then of_Z 255 else Fin q)
  = RInt (clampZ z).
Proof.
  intros Hq. unfold lt, gt, lt, of_Z, clampZ.
  destruct (Qle_bool (inject_Z 0) q) eqn:H0; cbn [negb].
  - apply Qle_bool_iff in H0. rewrite Hq, <- Zle_Qle in H0.
    destruct (Qle_bool q (inject_Z 255)) eqn:H1; cbn [negb].
    + apply Qle_bool_iff in H1. rewrite Hq, <- Zle_Qle in H1.
      cbn [Math_round]. rewrite (Qfloor_comp _ _
        (Qplus_comp _ _ Hq _ _ (Qeq_refl (1 # 2)))).
      rewrite Qfloor_int_half. f_equal. lia.
    + assert (Hgt : (255 < z)%Z).
      { apply Z.lt_nge. intros Hle. rewrite Zle_Qle in Hle.
        rewrite <- Hq in Hle. apply Qle_bool_iff in Hle. congruence. }
      cbn [Math_round]. rewrite Qfloor_int_half. f_equal. lia.
  - assert (Hlt : (z < 0)%Z).
    { apply Z.lt_nge. intros Hle. rewrite Zle_Qle in Hle.
      rewrite <- Hq in Hle. apply Qle_bool_iff in Hle. congruence. }
    cbn [Math_round]. rewrite Qfloor_int_half. f_equal. lia.
Qed.

Lemma clampZ_range (z : Z) : (0 <= clampZ z <= 255)%Z.
Proof. unfold clampZ. lia. Qed.

(** Clamping and rounding, on a number far above the range. *)
Lemma clamp_round_big (x : jsnum) :
  (x = PInf \/ exists r, x = Fin r /\ inject_Z (2 ^ 53) <= r) ->
  Math_round
    (if lt x (of_Z 0) then of_Z 0
     else if gt x (of_Z 255) then of_Z 255 else x)
  = RInt 255.
Proof.
  intros [->|(r & -> & Hr)]; [reflexivity|].
  unfold lt, gt, lt, of_Z.
  assert (H0 : Qle_bool (inject_Z 0) r = true).
  { apply Qle_bool_iff. eapply Qle_trans; [|exact Hr]. discriminate. }
  assert (H1 : Qle_bool r (inject_Z 255) = false).
  { destruct (Qle_bool r (inject_Z 255)) eqn:E; [|reflexivity]. exfalso.
    apply Qle_bool_iff in E. pose proof (Qle_trans _ _ _ Hr E) as H.
    rewrite <- Zle_Qle in H.
    assert (Hp : (2 ^ 53 = 9007199254740992)%Z) by reflexivity. lia. }
  rewrite H0, H1. reflexivity.
Qed.

(** Clamping and rounding, on a number far below the range. *)
Lemma clamp_round_small (x : jsnum) :
  (x = NInf \/ exists r, x = Fin r /\ r <= - inject_Z (2 ^ 53)) ->
  Math_round
    (if lt x (of_Z 0) then of_Z 0
     else if gt x (of_Z 255) then of_Z 255 else x)
  = RInt 0.
Proof.
  intros [->|(r & -> & Hr)]; [reflexivity|].
  unfold lt, of_Z.
  assert (H0 : Qle_bool (inject_Z 0) r = false).
  { destruct (Qle_bool (inject_Z 0) r) eqn:E; [|reflexivity]. exfalso.
    apply Qle_bool_iff in E. pose proof (Qle_trans _ _ _ E Hr) as H.
    rewrite <- inject_Z_opp, <- Zle_Qle in H.
    assert (Hp : (2 ^ 53 = 9007199254740992)%Z) by reflexivity. lia. }
  rewrite H0. reflexivity.
Qed.

(** Clamping and rounding, on the double of any integer. *)
Lemma clamp_round_double (q : Q) (z : Z) :
  q == inject_Z z ->
  Math_round
    (if lt (to_double q) (of_Z 0) then of_Z 0
     else if gt (to_double q) (of_Z 255) then of_Z 255 else to_double q)
  = RInt (clampZ z).
Proof.
  intros Hq.
  assert (Hp : (2 ^ 53 = 9007199254740992)%Z) by reflexivity.
  destruct (Z.lt_ge_cases (Z.abs z) (2 ^ 53)) as [Hz|Hz].
  - rewrite (to_double_integer q z Hq Hz).
    apply clamp_round_integer, Qeq_refl.
  - destruct (to_double_large q z Hq Hz) as [Hpos Hneg].
    destruct (Z.lt_ge_cases z 0) as [Hs|Hs].
    + rewrite (clamp_round_small _ (Hneg Hs)). unfold clampZ. f_equal. lia.
    + rewrite (clamp_round_big _ (Hpos ltac:(lia))). unfold clampZ.
      f_equal. lia.
Qed.

(** The same, on the absolute value of the double of any integer. *)
Lemma clamp_round_abs_double (q : Q) (z : Z) :
  q == inject_Z z ->
  Math_round
    (if lt (Math_abs (to_double q)) (of_Z 0) then of_Z 0
     else if gt (Math_abs (to_double q)) (of_Z 255) then of_Z 255
          else Math_abs (to_double q))
  = RInt (clampZ (Z.abs z)).
Proof.
  intros Hq.
  assert (Hp : (2 ^ 53 = 9007199254740992)%Z) by reflexivity.
  destruct (Z.lt_ge_cases (Z.abs z) (2 ^ 53)) as [Hz|Hz].
  - rewrite (to_double_integer q z Hq Hz). cbn [Math_abs].
    change (Qabs (inject_Z z)) with (inject_Z (Z.abs z)).
    apply clamp_round_integer, Qeq_refl.
  - assert (Hbig : Math_abs (to_double q) = PInf
                   \/ exists r, Math_abs (to_double q) = Fin r
                                /\ inject_Z (2 ^ 53) <= r).
    { destruct (to_double_large q z Hq Hz) as [Hpos Hneg].
      destruct (Z.lt_ge_cases z 0) as [Hs|Hs].
      - destruct (Hneg Hs) as [->|(r & -> & Hr)]; [now left|]. right.
        exists (Qabs r). split; [reflexivity|].
        rewrite Qabs_neg.
        + apply Qopp_le_compat in Hr. now rewrite Qopp_involutive in Hr.
        + eapply Qle_trans; [exact Hr|]. discriminate.
      - destruct (Hpos ltac:(lia)) as [->|(r & -> & Hr)]; [now left|]. right.
        exists (Qabs r). split; [reflexivity|].
        rewrite Qabs_pos; [exact Hr|].
        eapply Qle_trans; [|exact Hr]. discriminate. }
    rewrite (clamp_round_big _ Hbig). unfold clampZ. f_equal. lia.
Qed.

Lemma valueToHex_of_Z (v : Z) :
  valueToHex (of_Z v) None = hex_pair (clampZ v).
Proof.
  unfold valueToHex. cbv zeta.
  change (of_Z v) with (Fin (inject_Z v)).
  rewrite (clamp_round_integer (inject_Z v) v (Qeq_refl _)).
  cbn [toString16]. apply pad_toString16, clampZ_range.
Qed.

(** X1. On integers the encoding has a closed form: [valueToHex] of an
    integer value and an integer delta is the two-digit rendering of their
    sum clamped to [0,255], whatever the value and the delta are; with no
    delta, or [NaN] for one, it is that of the clamped value. *)
Theorem valueToHex_integers (v d : Z) :
  valueToHex (of_Z v) (Some (of_Z d)) = hex_pair (clampZ (v + d))
  /\ valueToHex (of_Z v) None = hex_pair (clampZ v)
  /\ valueToHex (of_Z v) (Some NaN) = hex_pair (clampZ v).
Proof.
  split; [|split; exact (valueToHex_of_Z v)].
  unfold valueToHex. cbv zeta.
  change (if negb (isNaN (of_Z d)) then add (of_Z v) (of_Z d) else of_Z v)
    with (to_double (inject_Z v + inject_Z d)).
  rewrite (clamp_round_double (inject_Z v + inject_Z d) (v + d)).
  - cbn [toString16]. apply pad_toString16, clampZ_range.
  - rewrite inject_Z_plus. apply Qeq_refl.
Qed.

Lemma shift_step_num (value : jsnum) (delta : option jsnum) :
  match delta with
  | Some d => if negb (isNaN d) then add value d else value
  | None => value
  end = shifted_num value delta.
Proof. destruct delta as [[| | |x]|]; reflexivity. Qed.

(** X2. [valueToHex] answers with two radix-16 digits exactly when the
    number it starts from ([value + delta], or [value] when [delta] is
    [NaN] or absent) is not [NaN]; when it is, as for a missing channel or
    for opposite infinities, the answer is the three letters [NaN]. *)
Theorem valueToHex_NaN_or_pair (value : jsnum) (delta : option jsnum) :
  (shifted_num value delta = NaN /\ valueToHex value delta = "NaN")
  \/ (shifted_num value delta <> NaN
      /\ exists n : Z, (0 <= n <= 255)%Z
                       /\ valueToHex value delta = hex_pair n).
Proof.
  unfold valueToHex. rewrite shift_step_num.
  destruct (shifted_num value delta) as [| | |q] eqn:E.
  - left. split; reflexivity.
  - right. split; [discriminate|]. exists 255%Z. split; [lia|reflexivity].
  - right. split; [discriminate|]. exists 0%Z. split; [lia|reflexivity].
  - right. split; [discriminate|].
    destruct (clamp_step (Fin q)) as (c & Hc & _ & Hrange); [discriminate|].
    rewrite Hc. exists (Qfloor (c + (1 # 2))).
    pose proof (Qfloor_half_range c Hrange) as Hn. split; [exact Hn|].
    cbn [Math_round toString16]. now apply pad_toString16.
Qed.

Lemma hex_digit_value (d : Z) :
  (0 <= d < 16)%Z -> Json.hex_value (hex_digit d) = Some d.
Proof.
  intros Hd.
  assert (H : In (Z.to_nat d) (seq 0 16)) by (apply in_seq; lia).
  assert (Hall : forallb (fun k =>
            match Json.hex_value (hex_digit (Z.of_nat k)) with
            | Some x => Z.eqb x (Z.of_nat k)
            | None => false
            end) (seq 0 16) = true) by (vm_compute; reflexivity).
  rewrite forallb_forall in Hall. specialize (Hall _ H).
  rewrite Z2Nat.id in Hall by lia.
  destruct (Json.hex_value (hex_digit d)); [|discriminate].
  apply Z.eqb_eq in Hall. now subst.
Qed.

Lemma hex_pair_inj (n m : Z) :
  (0 <= n <= 255)%Z -> (0 <= m <= 255)%Z ->
  hex_pair n = hex_pair m -> n = m.
Proof.
  intros Hn Hm H. unfold hex_pair in H. injection H as H1 H2.
  apply (f_equal Json.hex_value) in H1, H2.
  rewrite !hex_digit_value in H1, H2
    by (Z.to_euclidean_division_equations; lia).
  injection H1 as H1. injection H2 as H2.
  Z.to_euclidean_division_equations. lia.
Qed.

(** X3. The encoding loses nothing on the channel range: two colours with
    integer channels in [0,255] have the same [colorToHex] text only when
    they are the same colour. *)
Theorem colorToHex_injective (r g b r' g' b' : Z) :
  (0 <= r <= 255)%Z -> (0 <= g <= 255)%Z -> (0 <= b <= 255)%Z ->
  (0 <= r' <= 255)%Z -> (0 <= g' <= 255)%Z -> (0 <= b' <= 255)%Z ->
  colorToHex (rgb r g b) None = colorToHex (rgb r' g' b') None ->
  r = r' /\ g = g' /\ b = b'.
Proof.
  intros Hr Hg Hb Hr' Hg' Hb' H.
  unfold colorToHex, rgb in H; cbn [red green blue] in H.
  rewrite !valueToHex_of_Z in H.
  unfold clampZ in H.
  rewrite !Z.min_r, !Z.max_r in H by lia.
  injection H as H1 H2 H3 H4 H5 H6.
  repeat split; apply hex_pair_inj; try assumption;
    unfold hex_pair; congruence.
Qed.

(** X4. The text colour [reverseColor] gives, with no delta, for integer
    channels: each channel [c] is rendered as [|255 - c|] clamped to the
    range, which for a channel in [0,255] is [255 - c], digit by digit the
    complement to fifteen of the digits of [c].  A channel below 0 or
    above 510 is thus rendered as [ff]. *)
Theorem reverseColor_complement (r g b : Z) :
  reverseColor (rgb r g b) None
  = String "#" (hex_pair (clampZ (Z.abs (255 - r)))
                ++ hex_pair (clampZ (Z.abs (255 - g)))
                ++ hex_pair (clampZ (Z.abs (255 - b))))%string
  /\ forall c, (0 <= c <= 255)%Z ->
       hex_pair (clampZ (Z.abs (255 - c)))
       = String (hex_digit (15 - c / 16))
           (String (hex_digit (15 - c mod 16)) EmptyString).
Proof.
  assert (Hch : forall c,
            valueToHex (reverse_channel (of_Z c)) None
            = hex_pair (clampZ (Z.abs (255 - c)))).
  { intros c. unfold valueToHex. cbv zeta.
    change (reverse_channel (of_Z c))
      with (Math_abs (to_double (inject_Z 255 + - inject_Z c))).
    rewrite (clamp_round_abs_double _ (255 - c) (sub_of_Z 255 c)).
    cbn [toString16]. apply pad_toString16, clampZ_range. }
  split.
  - unfold reverseColor, colorToHex, reversed, rgb; cbn [red green blue].
    now rewrite !Hch.
  - intros c Hc. unfold clampZ, hex_pair.
    rewrite Z.min_r, Z.max_r by lia.
    f_equal; [|f_equal]; f_equal;
      Z.to_euclidean_division_equations; lia.
Qed.

End ColourMore.

Lemma reverseColor_complement_witness :
  reverseColor (rgb 10 20 30) None = "#f5ebe1"
  /\ hex_pair (clampZ (Z.abs (255 - 10))) = "f5".
Proof.
  pose proof (reverseColor_complement 10 20 30) as [H1 H2].
  split; [rewrite H1; reflexivity|].
  rewrite (H2 10 ltac:(lia)). reflexivity.
Defined.

Lemma colorToHex_injective_witness :
  colorToHex (rgb 10 20 30) None = colorToHex (rgb 10 20 30) None
  /\ (10 = 10 /\ 20 = 20 /\ 30 = 30)%Z.
Proof.
  split; [reflexivity|].
  apply (colorToHex_injective 10 20 30 10 20 30); try lia. reflexivity.
Defined.

(** ** Theme update *)

Lemma append_assoc (a b c : string) :
  ((a ++ b) ++ c = a ++ (b ++ c))%string.
Proof.
  induction a as [|x a IH]; [reflexivity|].
  change (String x ((a ++ b) ++ c) = String x (a ++ (b ++ c)))%string.
  now f_equal.
Qed.

Lemma update_rule_text (info : SkinInfo) :
  ("body" ++ " { "
   ++ ("color: " ++ reverseColor (panelBackgroundColor info) None ++ ";"
       ++ "font-size:" ++ pretty (baseFontSize info) ++ "px;"
       ++ "background-color:" ++ colorToHex (panelBackgroundColor info) None)
   ++ " }")%string
  = body_rule info.
Proof.
  unfold body_rule. cbn [String.append].
  repeat (rewrite ?append_assoc; cbn [String.append]). reflexivity.
Qed.

Lemma insert_at_end (rules : list string) (text : string) :
  (take (List.length rules) rules ++ text :: drop (List.length rules) rules
   = rules ++ [text])%list.
Proof. now rewrite take_ge, drop_ge by lia. Qed.

(** What [update] does to a host that has the sheet. *)
Lemma update_on_sheet (self : CEPExtension) (h : Host) (info : SkinInfo)
  (sh : Sheet) :
  stylesheets h !! stylesheet self = Some sh ->
  update self h info
  = Ok (if has_addRule sh || has_insertRule sh
        then set_sheet h (stylesheet self)
               (mkSheet (has_addRule sh) (has_insertRule sh)
                  (cssRules sh ++ [body_rule info])%list)
        else h).
Proof.
  intros Hsh. unfold update, addRule. rewrite Hsh.
  destruct (has_addRule sh) eqn:Ha; cbn [orb].
  - unfold sheet_addRule. now rewrite update_rule_text, Ha.
  - destruct (has_insertRule sh) eqn:Hi; [|reflexivity].
    unfold sheet_insertRule. rewrite insert_at_end.
    now rewrite update_rule_text, Ha, Hi.
Qed.

(** X5. [update] never replaces a rule: on a sheet offering [addRule] or
    [insertRule] it puts one more [body] rule after the rules already
    there, whichever of the two methods it goes through, and changes
    nothing else of the host; on a sheet offering neither it does nothing;
    with no sheet behind the selector it throws. *)
Theorem update_appends_rule (self : CEPExtension) (h : Host)
  (info : SkinInfo) :
  (stylesheets h !! stylesheet self = None ->
   update self h info = Throw TypeError)
  /\ (forall sh,
        stylesheets h !! stylesheet self = Some sh ->
        exists h',
          update self h info = Ok h'
          /\ sheet_rules self h'
             = Some (if has_addRule sh || has_insertRule sh
                     then (cssRules sh ++ [body_rule info])%list
                     else cssRules sh)
          /\ (forall other, other <> stylesheet self ->
                stylesheets h' !! other = stylesheets h !! other)
          /\ files h' = files h /\ dirs h' = dirs h
          /\ theme_listeners h' = theme_listeners h).
Proof.
  split.
  - intros Hnone. unfold update, addRule. now rewrite Hnone.
  - intros sh Hsh. eexists. split; [exact (update_on_sheet _ _ _ _ Hsh)|].
    unfold sheet_rules.
    destruct (has_addRule sh || has_insertRule sh).
    + cbn [set_sheet stylesheets files dirs theme_listeners].
      rewrite lookup_insert_eq. split; [reflexivity|].
      split; [|repeat split].
      intros other Hne. now rewrite lookup_insert_ne.
    + rewrite Hsh. repeat split.
Qed.

Lemma update_appends_rule_witness :
  exists h',
    update (example_adapter (JObj [])) (example_host None)
      (mkSkinInfo (rgb 10 20 30) 11) = Ok h'
    /\ sheet_rules (example_adapter (JObj [])) h'
       = Some [body_rule (mkSkinInfo (rgb 10 20 30) 11)].
Proof.
  destruct (proj2 (update_appends_rule (example_adapter (JObj []))
                     (example_host None) (mkSkinInfo (rgb 10 20 30) 11))
              (mkSheet true true []))
    as (h' & E & Hrules & _).
  - vm_compute. reflexivity.
  - exists h'. split; [exact E|exact Hrules].
Defined.

(** ** Construction *)


(** The host a successful construction leaves: the directory made, the
    listener added, the rule written. *)
Lemma construct_host (h : Host) (sheet namespace : string)
  (a : CEPExtension) (h' : Host) :
  construct h sheet namespace = Ok (a, h') ->
  stylesheet a = sheet
  /\ settingsFile a = settings_file_of h namespace
  /\ settings a = loaded_settings (readFile h (settings_file_of h namespace))
  /\ update a
       (addEventListener
          (makedir h (user_data_path h ++ "/" ++ namespace)%string))
       (appSkinInfo h) = Ok h'.
Proof.
  intros E. pose proof (construct_inv _ _ _ _ _ E) as [Hcep Ha].
  unfold construct in E. rewrite Hcep in E. cbn [negb] in E.
  rewrite js_or_unserialize in E.
  match type of E with
  | match update ?s ?hh ?i with _ => _ end = _ =>
      destruct (update s hh i) as [h1| |] eqn:U; try discriminate;
      change s with (mkCEPExtension sheet true (extension_path h)
                       (user_data_path h ++ "/" ++ namespace)
                       ((user_data_path h ++ "/" ++ namespace)
                          ++ "/settings.json")
                       (loaded_settings
                          (readFile h
                             ((user_data_path h ++ "/" ++ namespace)
                                ++ "/settings.json")))
                       (host_appName h)
                       (String.eqb (host_appName h) "FLPR"))%string in U;
      rewrite <- Ha in U
  end.
  injection E as _ <-. subst a. repeat split. exact U.
Qed.

Lemma construct_on_sheet (h : Host) (sheet namespace : string) (sh : Sheet) :
  adobe_cep h = true ->
  stylesheets h !! sheet = Some sh ->
  exists a h', construct h sheet namespace = Ok (a, h').
Proof.
  intros Hcep Hsh. unfold construct. rewrite Hcep. cbn [negb].
  match goal with
  | |- exists a h', match update ?s ?hh ?i with _ => _ end = _ =>
      rewrite (update_on_sheet s hh i sh Hsh)
  end.
  eexists _, _. reflexivity.
Qed.

(** X6. Construction succeeds exactly on a supported host that has the
    style sheet; with the sheet missing it throws a type error.  When it
    succeeds it has made the namespace directory, added one theme
    listener and written one [body] rule for the current skin, and it has
    written no file: the settings file is only read. *)
Theorem construct_outcome (h : Host) (sheet namespace : string) :
  ((exists a h', construct h sheet namespace = Ok (a, h'))
   <-> adobe_cep h = true /\ is_Some (stylesheets h !! sheet))
  /\ (adobe_cep h = true -> stylesheets h !! sheet = None ->
      construct h sheet namespace = Throw TypeError)
  /\ (forall a h' sh,
        construct h sheet namespace = Ok (a, h') ->
        stylesheets h !! sheet = Some sh ->
        files h' = files h
        /\ dirs h' = {[ (user_data_path h ++ "/" ++ namespace)%string ]}
                     ∪ dirs h
        /\ theme_listeners h' = S (theme_listeners h)
        /\ sheet_rules a h'
           = Some (if has_addRule sh || has_insertRule sh
                   then (cssRules sh ++ [body_rule (appSkinInfo h)])%list
                   else cssRules sh)
        /\ isFlash a = String.eqb (host_appName h) "FLPR").
Proof.
  split; [split|split].
  - intros (a & h' & E). pose proof (construct_inv _ _ _ _ _ E) as [Hcep _].
    split; [exact Hcep|].
    destruct (construct_host _ _ _ _ _ E) as (Hst & _ & _ & U).
    destruct (stylesheets h !! sheet) as [sh|] eqn:Hsh; [eauto|].
    unfold update, addRule in U. rewrite Hst in U.
    cbn [addEventListener makedir stylesheets] in U. rewrite Hsh in U.
    discriminate.
  - intros [Hcep [sh Hsh]]. exact (construct_on_sheet _ _ _ _ Hcep Hsh).
  - intros Hcep Hnone. unfold construct. rewrite Hcep. cbn [negb].
    unfold update, addRule.
    cbn [stylesheet addEventListener makedir stylesheets].
    now rewrite Hnone.
  - intros a h' sh E Hsh.
    destruct (construct_host _ _ _ _ _ E) as (Hst & _ & _ & U).
    pose proof (construct_inv _ _ _ _ _ E) as [_ Ha].
    rewrite (update_on_sheet a _ _ sh) in U
      by (rewrite Hst; exact Hsh).
    injection U as <-. unfold sheet_rules. rewrite Hst.
    destruct (has_addRule sh || has_insertRule sh).
    + cbn [set_sheet addEventListener makedir stylesheets files dirs
             theme_listeners appSkinInfo].
      rewrite lookup_insert_eq. subst a. repeat split.
    + cbn [addEventListener makedir stylesheets files dirs theme_listeners].
      rewrite Hsh. subst a. repeat split.
Qed.

Lemma construct_outcome_witness :
  exists a h',
    construct (example_host None) "#theme" "com.example.App" = Ok (a, h')
    /\ files h' = files (example_host None)
    /\ isFlash a = false.
Proof.
  destruct (proj2 (proj1 (construct_outcome (example_host None) "#theme"
                            "com.example.App")))
    as (a & h' & E).
  - split; [reflexivity|]. exists (mkSheet true true []).
    vm_compute. reflexivity.
  - exists a, h'. split; [exact E|].
    destruct (proj2 (proj2 (construct_outcome (example_host None) "#theme"
                              "com.example.App"))
                a h' (mkSheet true true []) E)
      as (Hf & _ & _ & _ & Hfl).
    + vm_compute. reflexivity.
    + split; [exact Hf|exact Hfl].
Defined.

(** ** What deserialization can give *)

Module RangeFacts.
Import Json.

Definition json_props (props : list (string * JSValue)) : bool :=
  forallb (fun kv => json_value (snd kv)) props.

Lemma json_props_replace (props : list (string * JSValue)) (k : string)
  (v : JSValue) :
  json_props props = true -> json_value v = true ->
  json_props (obj_replace props k v) = true.
Proof.
  unfold json_props. intros Hp Hv.
  induction props as [|[k' w] props IH]; simpl in *; [reflexivity|].
  apply andb_true_iff in Hp. destruct Hp as [Hw Hp].
  destruct (String.eqb k' k); simpl; rewrite ?Hv, ?Hw, ?Hp, ?IH; auto.
Qed.

Lemma json_props_insert_index (props : list (string * JSValue)) (i : Z)
  (k : string) (v : JSValue) :
  json_props props = true -> json_value v = true ->
  json_props (obj_insert_index props i k v) = true.
Proof.
  unfold json_props. intros Hp Hv.
  induction props as [|[k' w] props IH]; simpl in *; [now rewrite Hv|].
  apply andb_true_iff in Hp. destruct Hp as [Hw Hp].
  destruct (array_index k') as [j|]; [destruct (i <? j)|]; simpl;
    rewrite ?Hv, ?Hw, ?Hp, ?IH; auto.
Qed.

Lemma json_props_set (props : list (string * JSValue)) (k : string)
  (v : JSValue) :
  json_props props = true -> json_value v = true ->
  json_props (obj_set props k v) = true.
Proof.
  intros Hp Hv. unfold obj_set. destruct (obj_has props k).
  - now apply json_props_replace.
  - destruct (array_index k) as [i|].
    + now apply json_props_insert_index.
    + unfold json_props in *. rewrite forallb_app, Hp. simpl. now rewrite Hv.
Qed.

Lemma forallb_rev {A : Type} (p : A -> bool) (l : list A) :
  forallb p (rev l) = forallb p l.
Proof.
  induction l as [|x l IH]; simpl; [reflexivity|].
  rewrite forallb_app, IH. simpl. rewrite andb_true_r. apply andb_comm.
Qed.

Lemma json_value_arr (l : list JSValue) :
  json_value (JArr l) = forallb json_value l.
Proof. reflexivity. Qed.

Lemma json_value_obj (props : list (string * JSValue)) :
  json_value (JObj props) = json_props props.
Proof. reflexivity. Qed.

Lemma json_value_num (x : jsnum) : x <> NaN -> json_value (JNum x) = true.
Proof. destruct x; [contradiction|reflexivity ..]. Qed.

Lemma parse_number_json (cs : list ascii) (v : JSValue) (r : list ascii) :
  parse_number cs = POk v r -> json_value v = true.
Proof.
  unfold parse_number. intros H.
  repeat case_match; simplify_eq;
    first [reflexivity | apply json_value_num, to_double_not_NaN].
Qed.

(** The parser builds plain JSON data only. *)
Lemma parse_rec_json (n : nat) :
  (forall cs v r, parse_value n cs = POk v r -> json_value v = true)
  /\ (forall cs acc v r,
        forallb json_value acc = true ->
        parse_elements n cs acc = POk v r -> json_value v = true)
  /\ (forall cs acc v r,
        json_props acc = true ->
        parse_members n cs acc = POk v r -> json_value v = true).
Proof.
  induction n as [|n (IHv & IHe & IHm)];
    [repeat split; intros; discriminate|].
  repeat split.
  - intros cs v r H. cbn [parse_value] in H.
    repeat case_match; simplify_eq; try reflexivity.
    + eapply IHe; [|eassumption]. reflexivity.
    + eapply IHm; [|eassumption]. reflexivity.
    + eapply parse_number_json; eassumption.
  - intros cs acc v r Hacc H. cbn [parse_elements] in H.
    repeat case_match; simplify_eq.
    + eapply IHe; [|eassumption]. simpl.
      rewrite Hacc, andb_true_r. eapply IHv; eassumption.
    + rewrite json_value_arr, forallb_app, forallb_rev, Hacc. simpl.
      rewrite andb_true_r. eapply IHv; eassumption.
  - intros cs acc v r Hacc H. cbn [parse_members] in H.
    repeat case_match; simplify_eq.
    + eapply IHm; [|eassumption]. apply json_props_set; [exact Hacc|].
      eapply IHv; eassumption.
    + rewrite json_value_obj. apply json_props_set; [exact Hacc|].
      eapply IHv; eassumption.
Qed.

Lemma JSON_parse_json (text : string) (v : JSValue) :
  JSON_parse text = Some v -> json_value v = true.
Proof.
  unfold JSON_parse, parse. intros H.
  destruct (parse_value _ _) as [v' rest| |] eqn:P; try discriminate.
  destruct (skip_ws rest); [|discriminate]. injection H as <-.
  exact (proj1 (parse_rec_json _) _ _ _ P).
Qed.

End RangeFacts.

(** X13. What [unserialize] hands on is [undefined] for the literal
    [undefined] and for no other text; for every other text it is plain
    JSON data: never a function or a built-in object, and with no
    [undefined] and no [NaN] inside it at any depth.  (A number can be an
    infinity: a literal too large for a double parses to one.) *)
Theorem unserialize_range (str : string) :
  (unserialize str = JUndefined <-> str = "undefined")
  /\ (str <> "undefined" -> json_value (unserialize str) = true).
Proof.
  assert (Hjson : str <> "undefined" -> json_value (unserialize str) = true).
  { intros Hne. unfold unserialize.
    destruct (String.eqb_spec str "undefined"); [contradiction|].
    destruct (JSON_parse str) as [v|] eqn:P; [|reflexivity].
    exact (RangeFacts.JSON_parse_json _ _ P). }
  split; [|exact Hjson]. split.
  - intros Hu. destruct (String.eqb_spec str "undefined") as [E|Hne];
      [exact E|].
    specialize (Hjson Hne). rewrite Hu in Hjson. discriminate.
  - intros ->. reflexivity.
Qed.

Lemma unserialize_range_witness :
  unserialize "undefined" = JUndefined
  /\ json_value (unserialize "[1]") = true.
Proof.
  split.
  - apply (proj1 (unserialize_range "undefined")). reflexivity.
  - apply (proj2 (unserialize_range "[1]")). discriminate.
Defined.

Example unserialize_overflow :
  unserialize "1e400" = JNum PInf /\ unserialize "1e-400" = JNum (Fin 0).
Proof. split; vm_compute; reflexivity. Qed.

(** ** The settings store over the life of an instance *)


Lemma loaded_settings_object (text : string)
  (props : list (string * JSValue)) :
  JSON_parse text = Some (JObj props) -> loaded_settings text = JObj props.
Proof.
  intros Hp. unfold loaded_settings.
  destruct (String.eqb_spec text EmptyString) as [E|_];
    [rewrite E in Hp; vm_compute in Hp; discriminate|].
  destruct (String.eqb_spec text "undefined") as [E|_];
    [rewrite E in Hp; vm_compute in Hp; discriminate|].
  now rewrite Hp.
Qed.

(** X7. On a first run, with no settings file yet (or an empty one),
    [getProp] answers [null] for every name except those a plain object
    inherits something under ([constructor], [__proto__] and the functions
    of [Object.prototype]); for these it answers with what is inherited,
    which is not [null]. *)
Theorem first_run_getProp_null (h : Host) (sheet namespace : string)
  (a : CEPExtension) (h' : Host) :
  construct h sheet namespace = Ok (a, h') ->
  readFile h (settings_file_of h namespace) = EmptyString ->
  forall name,
    (name <> "constructor" -> name <> "__proto__" ->
     ~ In name (members KObject) ->
     getProp a name = Ok JNull)
    /\ (name = "constructor" \/ name = "__proto__"
        \/ In name (members KObject) ->
        getProp a name = Ok (inherited KObject name)
        /\ getProp a name <> Ok JNull).
Proof.
  intros E Htext name.
  destruct (construct_host _ _ _ _ _ E) as (_ & _ & Hs & _).
  assert (Hget : getProp a name = Ok (js_or (inherited KObject name) JNull)).
  { unfold getProp. rewrite Hs, Htext. reflexivity. }
  rewrite Hget. split.
  - intros Hc Hp Hm. destruct (inherited KObject name) eqn:Ei;
      try reflexivity; exfalso;
      assert (Hi : inherited KObject name <> JUndefined)
        by (rewrite Ei; discriminate);
      apply inherited_Object in Hi; tauto.
  - intros Hin. apply inherited_Object in Hin.
    assert (Ht : truthy (inherited KObject name) = true).
    { unfold inherited in *.
      repeat match goal with
             | |- context [if ?b then _ else _] => destruct b
             end; try reflexivity. contradiction. }
    unfold js_or. rewrite Ht. split; [reflexivity|].
    intros Heq. injection Heq as Heq. rewrite Heq in Ht. discriminate.
Qed.

Lemma first_run_getProp_null_witness :
  exists a h',
    construct (example_host None) "#theme" "com.example.App" = Ok (a, h')
    /\ getProp a "toolbar" = Ok JNull.
Proof.
  assert (E : { p | construct (example_host None) "#theme" "com.example.App"
                    = Ok p }).
  { eexists. vm_compute. reflexivity. }
  destruct E as [[a h'] E]. exists a, h'. split; [exact E|].
  apply (first_run_getProp_null _ _ _ _ _ E eq_refl "toolbar").
  - discriminate.
  - discriminate.
  - cbn [members In].
    intros H. repeat (destruct H as [H|H]; [discriminate H|]). exact H.
Defined.

Lemma with_settings_same (a : CEPExtension) :
  with_settings a (settings a) = a.
Proof. now destruct a. Qed.

Section StoreLife.

Variable JSON_stringify : JSValue -> option string.

(** X8. A settings file whose text is not valid JSON (and is neither empty
    nor the literal [undefined]) leaves the instance with that text for
    settings, and the store disabled: [setProp], on any host state, throws
    a type error and writes nothing for every name but [__proto__]; for
    [__proto__] the assignment is swallowed by the setter of
    [Object.prototype], and [setProp] goes on to overwrite the settings
    file with the serialization of the text. *)
Theorem setProp_on_broken_settings (h : Host) (sheet namespace : string)
  (a : CEPExtension) (h' : Host) :
  construct h sheet namespace = Ok (a, h') ->
  readFile h (settings_file_of h namespace) <> EmptyString ->
  readFile h (settings_file_of h namespace) <> "undefined" ->
  JSON_parse (readFile h (settings_file_of h namespace)) = None ->
  settings a = JStr (readFile h (settings_file_of h namespace))
  /\ forall h1 name value,
       (name <> "__proto__" ->
        setProp JSON_stringify a h1 name value = Throw TypeError)
       /\ (forall text,
             name = "__proto__" ->
             JSON_stringify (settings a) = Some text ->
             setProp JSON_stringify a h1 name value
             = Ok (a, writeFile h1 (settingsFile a) text)).
Proof.
  intros E Hne Hnu Hp.
  destruct (construct_host _ _ _ _ _ E) as (_ & _ & Hs & _).
  assert (Hstr : settings a
                 = JStr (readFile h (settings_file_of h namespace))).
  { rewrite Hs. unfold loaded_settings.
    destruct (String.eqb_spec (readFile h (settings_file_of h namespace))
                EmptyString); [contradiction|].
    destruct (String.eqb_spec (readFile h (settings_file_of h namespace))
                "undefined"); [contradiction|].
    now rewrite Hp. }
  split; [exact Hstr|]. intros h1 name value. split.
  - intros Hname. unfold setProp. rewrite Hstr. cbn [prop_set].
    destruct (String.eqb_spec name "__proto__"); [contradiction|reflexivity].
  - intros text -> Ht. unfold setProp. rewrite Hstr in *. cbn [prop_set].
    cbn [String.eqb Ascii.eqb Bool.eqb]. rewrite <- Hstr in *.
    rewrite with_settings_same, Ht. reflexivity.
Qed.

Lemma setProp_Ok_inv (a : CEPExtension) (h : Host) (name : string)
  (value : JSValue) (a' : CEPExtension) (h' : Host) :
  setProp JSON_stringify a h name value = Ok (a', h') ->
  exists s' text,
    prop_set (settings a) name value = Ok s'
    /\ JSON_stringify s' = Some text
    /\ a' = with_settings a s'
    /\ h' = writeFile h (settingsFile a) text.
Proof.
  unfold setProp.
  destruct (prop_set (settings a) name value) as [s'| |]; try discriminate.
  cbn [with_settings settings settingsFile].
  destruct (JSON_stringify s') as [text|] eqn:Ht; try discriminate.
  intros [= <- <-]. exists s', text. auto.
Qed.






(** X10. Settings survive a restart: when [setProp] leaves a settings map,
    an instance constructed anew for the same namespace on the host as it
    then is loads that map, provided the text written parses back to it.
    The map left is the one the assignment [settings[name] = value]
    gives, so for a name other than [__proto__] on a settings map it is
    the map with [name] bound to [value]. *)
Theorem settings_survive_reload (self : CEPExtension) (h : Host)
  (sheet namespace name : string) (value : JSValue)
  (props' : list (string * JSValue)) (text : string) (sh : Sheet) :
  prop_set (settings self) name value = Ok (JObj props') ->
  settingsFile self = settings_file_of h namespace ->
  JSON_stringify (JObj props') = Some text ->
  JSON_parse text = Some (JObj props') ->
  adobe_cep h = true ->
  stylesheets h !! sheet = Some sh ->
  (forall props, settings self = JObj props -> name <> "__proto__" ->
                 props' = obj_set props name value)
  /\ exists self1 h1 a2 h2,
       setProp JSON_stringify self h name value = Ok (self1, h1)
       /\ construct h1 sheet namespace = Ok (a2, h2)
       /\ settings a2 = settings self1
       /\ settings a2 = JObj props'.
Proof.
  intros Hset Hf Ht Hp Hcep Hsh. split.
  { intros props Hs Hne. rewrite Hs, (prop_set_plain props name value Hne)
      in Hset. now injection Hset as <-. }
  assert (E1 : setProp JSON_stringify self h name value
               = Ok (with_settings self (JObj props'),
                     writeFile h (settingsFile self) text)).
  { unfold setProp. rewrite Hset. cbn [with_settings settings].
    now rewrite Ht. }
  destruct (construct_on_sheet (writeFile h (settingsFile self) text)
              sheet namespace sh Hcep Hsh) as (a2 & h2 & E2).
  exists (with_settings self (JObj props')),
    (writeFile h (settingsFile self) text), a2, h2.
  split; [exact E1|]. split; [exact E2|].
  destruct (construct_host _ _ _ _ _ E2) as (_ & _ & Hs2 & _).
  assert (Hload : settings a2 = JObj props').
  { rewrite Hs2.
    replace (readFile (writeFile h (settingsFile self) text)
               (settings_file_of (writeFile h (settingsFile self) text)
                  namespace)) with text.
    - now apply loaded_settings_object.
    - unfold readFile, writeFile, settings_file_of in *.
      cbn [files user_data_path]. rewrite Hf.
      now rewrite lookup_insert_eq. }
  split; [|exact Hload]. now rewrite Hload.
Qed.

End StoreLife.

Lemma setProp_on_broken_settings_witness :
  exists a h',
    construct (example_host (Some "{")) "#theme" "com.example.App"
    = Ok (a, h')
    /\ setProp Serialize.stringify a h' "k" (JStr "v") = Throw TypeError.
Proof.
  assert (E : { p | construct (example_host (Some "{")) "#theme"
                      "com.example.App" = Ok p }).
  { eexists. vm_compute. reflexivity. }
  destruct E as [[a h'] E]. exists a, h'. split; [exact E|].
  apply (proj2 (setProp_on_broken_settings Serialize.stringify _ _ _ _ _ E
                  ltac:(vm_compute; discriminate)
                  ltac:(vm_compute; discriminate)
                  ltac:(vm_compute; reflexivity)) h' "k" (JStr "v")).
  discriminate.
Defined.


Lemma settings_survive_reload_witness :
  exists self1 h1 a2 h2,
    setProp Serialize.stringify (example_adapter (JObj []))
      (example_host None) "k" (JStr "v") = Ok (self1, h1)
    /\ construct h1 "#theme" "com.example.App" = Ok (a2, h2)
    /\ settings a2 = settings self1
    /\ settings a2 = JObj [("k", JStr "v")].
Proof.
  apply (settings_survive_reload Serialize.stringify
           (example_adapter (JObj [])) (example_host None)
           "#theme" "com.example.App" "k" (JStr "v") [("k", JStr "v")]
           (default EmptyString
              (Serialize.stringify (JObj [("k", JStr "v")])))
           (mkSheet true true [])).
  - reflexivity.
  - reflexivity.
  - vm_compute. reflexivity.
  - vm_compute. reflexivity.
  - reflexivity.
  - vm_compute. reflexivity.
Defined.

(** ** Writing a key again, and writing two keys *)

Lemma obj_replace_twice (props : list (string * JSValue)) (k : string)
  (v1 v2 : JSValue) :
  obj_replace (obj_replace props k v1) k v2 = obj_replace props k v2.
Proof.
  induction props as [|[k' w] props IH]; simpl; [reflexivity|].
  destruct (String.eqb k' k) eqn:E; simpl; rewrite E; [reflexivity|].
  now rewrite IH.
Qed.

Lemma obj_replace_insert_index (props : list (string * JSValue)) (i : Z)
  (k : string) (v1 v2 : JSValue) :
  obj_get props k = None ->
  obj_replace (obj_insert_index props i k v1) k v2
  = obj_insert_index props i k v2.
Proof.
  induction props as [|[k' w] props IH]; simpl.
  - now rewrite String.eqb_refl.
  - destruct (String.eqb k' k) eqn:E; [discriminate|]. intros Hrest.
    destruct (array_index k') as [j|]; [destruct (i <? j)|]; simpl;
      rewrite ?String.eqb_refl, ?E, ?IH; auto.
Qed.

Lemma obj_replace_app_new (props : list (string * JSValue)) (k : string)
  (v1 v2 : JSValue) :
  obj_get props k = None ->
  obj_replace (props ++ [(k, v1)]) k v2 = (props ++ [(k, v2)])%list.
Proof.
  induction props as [|[k' w] props IH]; simpl.
  - now rewrite String.eqb_refl.
  - destruct (String.eqb k' k) eqn:E; [discriminate|]. intros Hrest.
    now rewrite IH.
Qed.

Lemma obj_has_set (props : list (string * JSValue)) (k : string)
  (v : JSValue) : obj_has (obj_set props k v) k = true.
Proof. unfold obj_has. now rewrite obj_get_set_eq. Qed.

Lemma obj_set_twice (props : list (string * JSValue)) (k : string)
  (v1 v2 : JSValue) :
  obj_set (obj_set props k v1) k v2 = obj_set props k v2.
Proof.
  unfold obj_set at 1. rewrite obj_has_set. unfold obj_set.
  destruct (obj_has props k) eqn:Hhas.
  - apply obj_replace_twice.
  - assert (Hnone : obj_get props k = None).
    { unfold obj_has in Hhas. destruct (obj_get props k); congruence. }
    destruct (array_index k) as [i|].
    + now apply obj_replace_insert_index.
    + now apply obj_replace_app_new.
Qed.

(** The own properties an assignment [o[k] = v] leaves on a plain object
    when it goes through: those of [obj_set], except that [__proto__], when
    it is no property of the object itself, is taken by the setter and
    leaves them as they were. *)
Lemma prop_set_obj_inv (props : list (string * JSValue)) (k : string)
  (v s' : JSValue) :
  prop_set (JObj props) k v = Ok s' ->
  s' = JObj (if String.eqb k "__proto__" && negb (obj_has props k)
             then props else obj_set props k v).
Proof.
  cbn [prop_set].
  destruct (String.eqb k "__proto__" && negb (obj_has props k)).
  - destruct (is_object_or_null v); [discriminate|]. now intros [= <-].
  - now intros [= <-].
Qed.

Lemma obj_has_set_ne (props : list (string * JSValue)) (k n : string)
  (v : JSValue) :
  n <> k -> obj_has (obj_set props k v) n = obj_has props n.
Proof.
  intros Hne. unfold obj_has. now rewrite obj_get_set_ne.
Qed.

Section StoreAlgebra.

Variable JSON_stringify : JSValue -> option string.

(** X11. The last write wins and leaves no trace of the earlier one: on a
    settings map and for a key [k] other than [__proto__],
    [setProp(k, v1)] followed by [setProp(k, v2)] ends in the very state,
    instance and host, that [setProp(k, v2)] alone gives. *)
Theorem setProp_overwrite (self : CEPExtension) (h : Host) (k : string)
  (v1 v2 : JSValue) (props : list (string * JSValue)) (t1 t2 : string) :
  settings self = JObj props ->
  k <> "__proto__" ->
  JSON_stringify (JObj (obj_set props k v1)) = Some t1 ->
  JSON_stringify (JObj (obj_set props k v2)) = Some t2 ->
  exists s1 h1 s2 h2,
    setProp JSON_stringify self h k v1 = Ok (s1, h1)
    /\ setProp JSON_stringify s1 h1 k v2 = Ok (s2, h2)
    /\ setProp JSON_stringify self h k v2 = Ok (s2, h2).
Proof.
  intros Hs Hne H1 H2.
  pose proof (setProp_object JSON_stringify self h k v1 props t1 Hs Hne H1)
    as E1.
  pose proof (setProp_object JSON_stringify self h k v2 props t2 Hs Hne H2)
    as E2.
  set (s1 := with_settings self (JObj (obj_set props k v1))) in *.
  set (h1 := writeFile h (settingsFile self) t1) in *.
  assert (H12 : JSON_stringify (JObj (obj_set (obj_set props k v1) k v2))
                = Some t2) by now rewrite obj_set_twice.
  pose proof (setProp_object JSON_stringify s1 h1 k v2
                (obj_set props k v1) t2 eq_refl Hne H12) as E12.
  exists s1, h1, (with_settings self (JObj (obj_set props k v2))),
    (writeFile h (settingsFile self) t2).
  split; [exact E1|]. split; [|exact E2].
  rewrite E12. rewrite obj_set_twice. subst s1 h1.
  unfold with_settings, writeFile;
    cbn [stylesheet supported extensionPath settingsPath settingsFile
           appName isFlash adobe_cep extension_path user_data_path
           host_appName appSkinInfo files dirs stylesheets theme_listeners].
  now rewrite insert_insert_eq.
Qed.

(** X12. The order of two writes to different keys does not show in what
    is read: after [setProp(k1, v1)] and [setProp(k2, v2)], in either
    order, [getProp] gives the same answer for every name. *)
Theorem setProp_order_irrelevant (self : CEPExtension) (h : Host)
  (k1 k2 : string) (v1 v2 : JSValue)
  (a1 a12 a2 a21 : CEPExtension) (h1 h12 h2 h21 : Host)
  (props : list (string * JSValue)) :
  settings self = JObj props ->
  k1 <> k2 ->
  setProp JSON_stringify self h k1 v1 = Ok (a1, h1) ->
  setProp JSON_stringify a1 h1 k2 v2 = Ok (a12, h12) ->
  setProp JSON_stringify self h k2 v2 = Ok (a2, h2) ->
  setProp JSON_stringify a2 h2 k1 v1 = Ok (a21, h21) ->
  forall name, getProp a12 name = getProp a21 name.
Proof.
  intros Hs Hne E1 E12 E2 E21 name.
  set (assigned := fun (p : list (string * JSValue)) k v =>
         if String.eqb k "__proto__" && negb (obj_has p k)
         then p else obj_set p k v).
  assert (Hstep : forall a0 h0 k v a' h' p,
            settings a0 = JObj p ->
            setProp JSON_stringify a0 h0 k v = Ok (a', h') ->
            settings a' = JObj (assigned p k v)).
  { intros a0 h0 k v a' h' p Hp E.
    destruct (setProp_Ok_inv JSON_stringify _ _ _ _ _ _ E)
      as (s' & text & Hset & _ & -> & _).
    rewrite Hp in Hset. apply prop_set_obj_inv in Hset. now subst s'. }
  assert (Hget_ne : forall p k v n,
            n <> k -> obj_get (assigned p k v) n = obj_get p n).
  { intros p k v n Hn. unfold assigned.
    destruct (String.eqb k "__proto__" && negb (obj_has p k));
      [reflexivity|now apply obj_get_set_ne]. }
  assert (Hget_eq : forall p k v,
            obj_get (assigned p k v) k
            = if String.eqb k "__proto__" && negb (obj_has p k)
              then None else Some v).
  { intros p k v. unfold assigned.
    destruct (String.eqb k "__proto__" && negb (obj_has p k)) eqn:E.
    - apply andb_true_iff in E. destruct E as [_ E].
      unfold obj_has in E. now destruct (obj_get p k).
    - apply obj_get_set_eq. }
  assert (Hhas_ne : forall p k v n,
            n <> k -> obj_has (assigned p k v) n = obj_has p n).
  { intros p k v n Hn. unfold obj_has. now rewrite Hget_ne. }
  pose proof (Hstep _ _ _ _ _ _ _ Hs E1) as S1.
  pose proof (Hstep _ _ _ _ _ _ _ S1 E12) as S12.
  pose proof (Hstep _ _ _ _ _ _ _ Hs E2) as S2.
  pose proof (Hstep _ _ _ _ _ _ _ S2 E21) as S21.
  unfold getProp. rewrite S12, S21. cbn [prop_get].
  assert (Hsame : obj_get (assigned (assigned props k1 v1) k2 v2) name
                  = obj_get (assigned (assigned props k2 v2) k1 v1) name).
  { destruct (String.eqb_spec name k2) as [->|N2].
    - rewrite Hget_eq, (Hget_ne _ k1 v1 k2) by congruence.
      rewrite Hget_eq, Hhas_ne by congruence. reflexivity.
    - rewrite (Hget_ne _ k2 v2 name) by exact N2.
      destruct (String.eqb_spec name k1) as [->|N1].
      + rewrite !Hget_eq, Hhas_ne by congruence. reflexivity.
      + now rewrite !Hget_ne by assumption. }
  now rewrite Hsame.
Qed.

End StoreAlgebra.

Lemma setProp_overwrite_witness :
  exists s1 h1 s2 h2,
    setProp Serialize.stringify (example_adapter (JObj []))
      (example_host None) "k" (JStr "old") = Ok (s1, h1)
    /\ setProp Serialize.stringify s1 h1 "k" (JStr "new") = Ok (s2, h2)
    /\ setProp Serialize.stringify (example_adapter (JObj []))
         (example_host None) "k" (JStr "new") = Ok (s2, h2).
Proof.
  apply (setProp_overwrite Serialize.stringify (example_adapter (JObj []))
           (example_host None) "k" (JStr "old") (JStr "new") []
           (default EmptyString
              (Serialize.stringify (JObj [("k", JStr "old")])))
           (default EmptyString
              (Serialize.stringify (JObj [("k", JStr "new")])))).
  - reflexivity.
  - discriminate.
  - vm_compute. reflexivity.
  - vm_compute. reflexivity.
Defined.

Lemma setProp_order_irrelevant_witness :
  getProp (example_adapter (JObj [("a", JBool true); ("b", JStr "x")])) "a"
  = getProp (example_adapter (JObj [("b", JStr "x"); ("a", JBool true)])) "a".
Proof.
  eapply (setProp_order_irrelevant Serialize.stringify
            (example_adapter (JObj [])) (example_host None)
            "a" "b" (JBool true) (JStr "x") _ _ _ _ _ _ _ _ [] eq_refl).
  - discriminate.
  - vm_compute. reflexivity.
  - vm_compute. reflexivity.
  - vm_compute. reflexivity.
  - vm_compute. reflexivity.
Defined.

(** X14. A text that does not begin, after white space, like a JSON value
    (a quote, a bracket, a brace, a minus sign, a digit, or the first
    letter of [null], [true] or [false]) comes back from [unserialize] as
    it went in, the one exception being the literal [undefined]. *)
Theorem unserialize_plain_text (str : string) :
  str <> "undefined" ->
  match first_char str with
  | Some c => value_start c = false
  | None => True
  end ->
  unserialize str = JStr str.
Proof.
  intros Hne Hc. unfold unserialize.
  destruct (String.eqb_spec str "undefined"); [contradiction|].
  assert (Hp : JSON_parse str = None); [|now rewrite Hp].
  unfold JSON_parse, Json.parse, Json.fuel_for, first_char in *.
  rewrite Nat.add_comm. cbn [Nat.add Json.parse_value].
  destruct (Json.skip_ws (list_ascii_of_string str)) as [|c rest];
    [reflexivity|].
  cbn [head] in Hc. unfold value_start in Hc.
  repeat (apply orb_false_iff in Hc; destruct Hc as [Hc ?]).
  cbn [Json.strip_prefix String.append].
  repeat match goal with
         | H : _ = false |- _ => rewrite H; clear H
         end.
  reflexivity.
Qed.

Lemma unserialize_plain_text_witness :
  unserialize "EvalScript error." = JStr "EvalScript error.".
Proof.
  apply unserialize_plain_text.
  - discriminate.
  - reflexivity.
Defined.

(** ** Script bridge: arguments, callbacks and fetch chains *)

Section BridgeMore.

Variable JSON_stringify : JSValue -> option string.

Lemma execute_plain (self : CEPExtension) (script : string)
  (args callback : JSValue) :
  supported self = true ->
  is_function args = false ->
  execute JSON_stringify self script args callback
  = if is_script_path script then Get script args callback
    else EvalScript
           (if is_defined args
            then (args_declaration JSON_stringify args ++ script)%string
            else script) callback.
Proof.
  intros Hs Hf. unfold execute. rewrite Hf, Hs.
  destruct (is_script_path script); [reflexivity|].
  destruct (is_defined args); [|reflexivity].
  unfold args_declaration. now rewrite !append_assoc.
Qed.

(** X15. [execute] with arguments that are not a function, on a supported
    host: once every fetch has delivered, what reaches the host is the
    text of the script (the inline text, or the text fetched last) with
    the declaration of [args] before it when [args] is not [undefined] and
    nothing before it otherwise, together with the callback as passed.
    The response is then ignored when the callback is [undefined] and
    handed deserialized to the callback when that is a function; for an
    object it goes to what the object holds under [call] when that is a
    function; and the completion throws a type error for [null], for a
    number, a string, a boolean or an array, and for an object with no
    function under [call]. *)
Theorem execute_with_args (self : CEPExtension) (script : string)
  (args callback : JSValue) :
  supported self = true ->
  is_function args = false ->
  (forall fetch d,
     settles JSON_stringify fetch self script args callback d ->
     exists text,
       d = EvalScript
             (if is_defined args
              then (args_declaration JSON_stringify args ++ text)%string
              else text) callback
       /\ is_script_path text = false
       /\ (text = script \/ exists url, text = fetch url))
  /\ (forall response,
        (callback = JUndefined ->
         on_response self callback response = Ignored)
        /\ (forall f, callback = JFun f ->
              on_response self callback response
              = Call f self (unserialize response))
        /\ (forall props member,
              callback = JObj props ->
              obj_get props "call" = Some member ->
              is_function member = true ->
              on_response self callback response
              = CallMember member callback self (unserialize response))
        /\ (no_callable_call callback = true ->
            on_response self callback response = CallThrows TypeError)).
Proof.
  intros Hs Hf. split.
  - intros fetch d H.
    induction H as [s a c text c' E|s a c message E|s a c url a' c' d E _ IH].
    + rewrite (execute_plain _ _ _ _ Hs Hf) in E.
      destruct (is_script_path s) eqn:Hp; [discriminate|].
      injection E as <- <-. exists s. auto.
    + rewrite (execute_plain _ _ _ _ Hs Hf) in E.
      destruct (is_script_path s); discriminate.
    + rewrite (execute_plain _ _ _ _ Hs Hf) in E.
      destruct (is_script_path s); [|discriminate].
      injection E as <- <- <-.
      destruct (IH Hf) as (text & Hd & Hp & Hsrc).
      exists text. split; [exact Hd|]. split; [exact Hp|].
      right. destruct Hsrc as [->|Hsrc]; [now exists s|exact Hsrc].
  - intros response. repeat split.
    + intros ->. reflexivity.
    + intros f ->. reflexivity.
    + intros props member -> Hget Hfun. unfold on_response.
      cbn [is_defined prop_get]. rewrite Hget. unfold call_member.
      now rewrite Hfun.
    + intros Hno. unfold on_response.
      destruct callback as [| |b|n|str|elems|props|f|i];
        try discriminate; try reflexivity.
      cbn [is_defined prop_get no_callable_call] in *.
      destruct (obj_get props "call") as [member|]; unfold call_member.
      * cbn [from_option id] in Hno.
        destruct (is_function member); [discriminate|reflexivity].
      * reflexivity.
Qed.

(** X16. A script file whose text is its own path is fetched again and
    again: on a supported host [execute] never gets to hand anything to
    the host for it, nor to report an error. *)
Theorem self_fetching_never_settles (self : CEPExtension)
  (fetch : string -> string) (url : string) (args callback : JSValue)
  (d : Dispatch) :
  supported self = true ->
  is_script_path url = true ->
  fetch url = url ->
  ~ settles JSON_stringify fetch self url args callback d.
Proof.
  intros Hs Hp Hfix H.
  remember url as s eqn:Es in H.
  induction H as [s a c text c' E|s a c message E|s a c u a' c' d E _ IH];
    subst s.
  - destruct (execute_supported JSON_stringify self url a c Hs)
      as (x & y & _ & E'). rewrite E', Hp in E. discriminate.
  - destruct (execute_supported JSON_stringify self url a c Hs)
      as (x & y & _ & E'). rewrite E', Hp in E. discriminate.
  - destruct (execute_supported JSON_stringify self url a c Hs)
      as (x & y & _ & E'). rewrite E', Hp in E. injection E as <- _ _.
    apply IH. exact Hfix.
Qed.

End BridgeMore.

Lemma execute_with_args_witness :
  supported (example_adapter (JObj [])) = true
  /\ on_response (example_adapter (JObj [])) JNull "1"
     = CallThrows TypeError.
Proof.
  split; [reflexivity|].
  apply (proj2 (execute_with_args Serialize.stringify
                  (example_adapter (JObj [])) "alert(1)" (JNum (of_Z 1))
                  JNull eq_refl eq_refl) "1").
  reflexivity.
Defined.

Lemma self_fetching_never_settles_witness :
  ~ settles Serialize.stringify (fun url => url)
      (example_adapter (JObj [])) "loop.js" JUndefined JUndefined
      (EvalScript "loop.js" JUndefined).
Proof.
  apply self_fetching_never_settles; reflexivity.
Defined.

(** ** Theme changes pile up rules *)

(** X17. Every theme change leaves one more [body] rule and removes none:
    after a series of theme changes on a sheet offering [addRule] or
    [insertRule], the sheet holds its former rules followed by one rule
    per change, in the order of the changes, so that the rule of the
    latest skin comes last. *)
Theorem theme_changes_accumulate (skins : list SkinInfo)
  (self : CEPExtension) (h : Host) (sh : Sheet) :
  stylesheets h !! stylesheet self = Some sh ->
  has_addRule sh || has_insertRule sh = true ->
  exists h',
    theme_changes skins self h = Ok h'
    /\ sheet_rules self h'
       = Some (cssRules sh ++ List.map body_rule skins)%list
    /\ files h' = files h.
Proof.
  revert h sh. induction skins as [|info skins IH]; intros h sh Hsh Hm.
  - exists h. unfold sheet_rules. rewrite Hsh. simpl.
    now rewrite app_nil_r.
  - cbn [theme_changes]. unfold themeChanged.
    change (appSkinInfo (set_skin h info)) with info.
    rewrite (update_on_sheet self (set_skin h info) info sh Hsh).
    cbn [has_addRule has_insertRule]. rewrite Hm.
    set (sh1 := mkSheet (has_addRule sh) (has_insertRule sh)
                  (cssRules sh ++ [body_rule info])%list).
    destruct (IH (set_sheet (set_skin h info) (stylesheet self) sh1) sh1)
      as (h' & E & Hrules & Hfiles).
    + cbn [set_sheet stylesheets]. now rewrite lookup_insert_eq.
    + exact Hm.
    + exists h'. split; [exact E|]. split; [|exact Hfiles].
      rewrite Hrules. subst sh1. cbn [cssRules List.map].
      now rewrite <- app_assoc.
Qed.

Lemma theme_changes_accumulate_witness :
  exists h',
    theme_changes [mkSkinInfo (rgb 10 20 30) 11; mkSkinInfo (rgb 0 0 0) 12]
      (example_adapter (JObj [])) (example_host None) = Ok h'
    /\ sheet_rules (example_adapter (JObj [])) h'
       = Some [body_rule (mkSkinInfo (rgb 10 20 30) 11);
               body_rule (mkSkinInfo (rgb 0 0 0) 12)].
Proof.
  destruct (theme_changes_accumulate
              [mkSkinInfo (rgb 10 20 30) 11; mkSkinInfo (rgb 0 0 0) 12]
              (example_adapter (JObj [])) (example_host None)
              (mkSheet true true []))
    as (h' & E & Hrules & _).
  - vm_compute. reflexivity.
  - reflexivity.
  - exists h'. split; [exact E|exact Hrules].
Defined.

